(** * The operation-path model of open-api-mocker (lib/paths/path.js)

    A shallow embedding of the class [Path]: request validation
    ([validateRequestParameters] and the functions under it), response
    resolution ([getResponse]) and example matching
    ([findPreferredExampleByRequest]), together with the part of the
    JavaScript run time these functions rely on (truthiness, [typeof],
    [===], [Number], [parseInt], [String], [Object.entries], [JSON.parse],
    property enumeration order) and the text that [object-hash] digests.

    Modelling conventions.
    - A JavaScript string is a [string] of bytes; case mapping and white
      space are those of ASCII.
    - A JavaScript number is [NaN], an infinity or an exact decimal
      [m * 10^e]; rounding to binary64, overflow and underflow are not
      modelled, so the model agrees with the run time on numerals of at
      most 15 significant digits whose magnitude binary64 holds.
    - [undefined] is the [None] of an [option]; a JSON-like value is a
      [jsval].
    - An object is an association list in property enumeration order
      (array-index keys first, in ascending order, then the other keys in
      insertion order); [obj_set] is property assignment, [obj_get] sees
      own properties only and [read] is the read [o[k]] of a plain object,
      which also finds the members inherited from [Object.prototype].
    - An exception is the [Throw] of [res]; log output is a list of
      [log_entry] carried next to the result.
    - The operation is an object shared by all calls: a function that
      assigns on it returns the operation after the call.
    - What the class imports from modules that are not modelled is a field
      of the class [Collaborators]. *)

From Stdlib Require Import ZArith List String Ascii Bool Lia.
Import ListNotations.

Open Scope string_scope.
Open Scope Z_scope.

(** ** Strings *)

Definition str_empty (s : string) : bool :=
  match s with EmptyString => true | String _ _ => false end.

Definition char_code (c : ascii) : Z := Z.of_nat (nat_of_ascii c).

Definition lower_char (c : ascii) : ascii :=
  if (65 <=? char_code c) && (char_code c <=? 90)
  then ascii_of_nat (nat_of_ascii c + 32) else c.

(** [String.prototype.toLowerCase] *)
Fixpoint toLowerCase (s : string) : string :=
  match s with
  | EmptyString => EmptyString
  | String c r => String (lower_char c) (toLowerCase r)
  end.

Definition is_digit (c : ascii) : bool :=
  (48 <=? char_code c) && (char_code c <=? 57).

Definition is_space (c : ascii) : bool :=
  let n := char_code c in ((9 <=? n) && (n <=? 13)) || (n =? 32).

Fixpoint skip_spaces (s : string) : string :=
  match s with
  | String c r => if is_space c then skip_spaces r else s
  | EmptyString => s
  end.

Fixpoint rev_string (s acc : string) : string :=
  match s with
  | EmptyString => acc
  | String c r => rev_string r (String c acc)
  end.

(** White space removed at both ends, as [StringToNumber] does. *)
Definition trim (s : string) : string :=
  let s1 := skip_spaces s in
  rev_string (skip_spaces (rev_string s1 EmptyString)) EmptyString.

(** The longest prefix of characters satisfying [p], and the rest. *)
Fixpoint span (p : ascii -> bool) (s : string) : string * string :=
  match s with
  | String c r =>
      if p c then let '(a, b) := span p r in (String c a, b)
      else (EmptyString, s)
  | EmptyString => (EmptyString, EmptyString)
  end.

Fixpoint repeat_char (c : ascii) (n : nat) : string :=
  match n with O => EmptyString | S k => String c (repeat_char c k) end.

Definition str_len (s : string) : Z := Z.of_nat (String.length s).

Fixpoint join (sep : string) (l : list string) : string :=
  match l with
  | [] => EmptyString
  | [x] => x
  | x :: r => x ++ sep ++ join sep r
  end.

(** ** Numbers *)

Inductive jsnum : Type :=
| NaN
| Infinity (negative : bool)
| Dec (m e : Z).

Definition isNaN (n : jsnum) : bool :=
  match n with NaN => true | _ => false end.

(** [===] on numbers: [NaN] differs from everything. *)
Definition num_eqb (a b : jsnum) : bool :=
  match a, b with
  | Infinity x, Infinity y => Bool.eqb x y
  | Dec m1 e1, Dec m2 e2 =>
      let e := Z.min e1 e2 in
      m1 * 10 ^ (e1 - e) =? m2 * 10 ^ (e2 - e)
  | _, _ => false
  end.

Definition num_is_zero (n : jsnum) : bool :=
  match n with Dec m _ => m =? 0 | _ => false end.

Definition digit_val (base : Z) (c : ascii) : option Z :=
  let n := char_code c in
  let v := if (48 <=? n) && (n <=? 57) then n - 48
           else if (97 <=? n) && (n <=? 122) then n - 87
           else if (65 <=? n) && (n <=? 90) then n - 55
           else base in
  if v <? base then Some v else None.

(** Value of a string of digits in [base]; [None] when empty or when some
    character is not a digit of that base. *)
Fixpoint digits_from (base : Z) (acc : Z) (s : string) : option Z :=
  match s with
  | EmptyString => Some acc
  | String c r =>
      match digit_val base c with
      | Some v => digits_from base (acc * base + v) r
      | None => None
      end
  end.

Definition digits_val (base : Z) (s : string) : option Z :=
  if str_empty s then None else digits_from base 0 s.

Definition dec_val (s : string) : Z :=
  match digits_from 10 0 s with Some z => z | None => 0 end.

(** An optional sign in front of a numeral. *)
Definition sign_split (s : string) : bool * string :=
  match s with
  | String c r =>
      if Ascii.eqb c "-" then (true, r)
      else if Ascii.eqb c "+" then (false, r)
      else (false, s)
  | EmptyString => (false, s)
  end.

Definition apply_sign (neg : bool) (z : Z) : Z := if neg then - z else z.

(** The exponent part of a decimal literal: empty, or [e]/[E], an optional
    sign and at least one digit. *)
Definition exponent_part (s : string) : option Z :=
  match s with
  | EmptyString => Some 0
  | String c r =>
      if (Ascii.eqb c "e" || Ascii.eqb c "E")%bool then
        let '(neg, d) := sign_split r in
        let '(ds, rest) := span is_digit d in
        if (str_empty ds || negb (str_empty rest))%bool then None
        else Some (apply_sign neg (dec_val ds))
      else None
  end.

(** [StrUnsignedDecimalLiteral] other than [Infinity]. *)
Definition unsigned_decimal (s : string) : option (Z * Z) :=
  let '(ip, r1) := span is_digit s in
  let '(fp, r2) :=
    match r1 with
    | String "." r => span is_digit r
    | _ => (EmptyString, r1)
    end in
  if (str_empty ip && str_empty fp)%bool then None
  else match exponent_part r2 with
       | Some x => Some (dec_val (ip ++ fp), x - str_len fp)
       | None => None
       end.

Definition radix_literal (s : string) : option Z :=
  match s with
  | String "0" (String c r) =>
      if (Ascii.eqb c "x" || Ascii.eqb c "X")%bool then digits_val 16 r
      else if (Ascii.eqb c "o" || Ascii.eqb c "O")%bool then digits_val 8 r
      else if (Ascii.eqb c "b" || Ascii.eqb c "B")%bool then digits_val 2 r
      else None
  | _ => None
  end.

(** [Number(s)] for a string [s] ([StringToNumber]). *)
Definition string_to_number (s : string) : jsnum :=
  let t := trim s in
  if str_empty t then Dec 0 0
  else match radix_literal t with
       | Some z => Dec z 0
       | None =>
           let '(neg, u) := sign_split t in
           if String.eqb u "Infinity" then Infinity neg
           else match unsigned_decimal u with
                | Some (m, e) => Dec (apply_sign neg m) e
                | None => NaN
                end
       end.

Definition digit_char (d : Z) : ascii := ascii_of_nat (Z.to_nat (48 + d)).

(** The decimal digits of [z] put in front of [acc], last digit first;
    [fuel] bounds the number of digits. *)
Fixpoint digits_acc (fuel : nat) (z : Z) (acc : string) : string :=
  match fuel with
  | O => acc
  | S f =>
      let acc' := String (digit_char (z mod 10)) acc in
      if z <? 10 then acc' else digits_acc f (z / 10) acc'
  end.

(** Decimal digits of a natural number (it has no more decimal digits than
    binary ones). *)
Definition Z_digits (z : Z) : string :=
  digits_acc (S (Z.to_nat (Z.log2 z))) z EmptyString.

(** Trailing zeros of the mantissa moved into the exponent
    ([fuel] bounds the number of steps, the digits of [m] suffice). *)
Fixpoint strip_zeros (fuel : nat) (m e : Z) : Z * Z :=
  match fuel with
  | O => (m, e)
  | S k => if (m =? 0) then (0, 0)
           else if (m mod 10 =? 0) then strip_zeros k (m / 10) (e + 1)
           else (m, e)
  end.

Definition strip_trailing (m e : Z) : Z * Z :=
  strip_zeros (String.length (Z_digits (Z.abs m))) m e.

Definition exponent_text (x : Z) : string :=
  (if x <? 0 then "e-" else "e+") ++ Z_digits (Z.abs x).

(** [Number::toString] in radix 10 for a positive [s * 10^(n-k)], where
    [ds] are the [k] digits of [s] and [s] has no trailing zero. *)
Definition positive_to_string (ds : string) (k n : Z) : string :=
  if (k <=? n) && (n <=? 21) then
    ds ++ repeat_char "0" (Z.to_nat (n - k))
  else if (0 <? n) && (n <=? 21) then
    substring 0 (Z.to_nat n) ds ++ "." ++
    substring (Z.to_nat n) (Z.to_nat (k - n)) ds
  else if (-6 <? n) && (n <=? 0) then
    "0." ++ repeat_char "0" (Z.to_nat (- n)) ++ ds
  else if k =? 1 then ds ++ exponent_text (n - 1)
  else substring 0 1 ds ++ "." ++ substring 1 (Z.to_nat (k - 1)) ds
       ++ exponent_text (n - 1).

(** [String(n)] for a number [n]. *)
Definition num_to_string (x : jsnum) : string :=
  match x with
  | NaN => "NaN"
  | Infinity neg => if neg then "-Infinity" else "Infinity"
  | Dec m e =>
      let '(s, e') := strip_trailing m e in
      if s =? 0 then "0"
      else
        let ds := Z_digits (Z.abs s) in
        let k := str_len ds in
        (if s <? 0 then "-" else EmptyString)
        ++ positive_to_string ds k (k + e')
  end.

(** [parseInt(s, 10)] for a string [s]. *)
Definition parseInt_string (s : string) : jsnum :=
  let '(neg, u) := sign_split (skip_spaces s) in
  let '(ds, _) := span is_digit u in
  if str_empty ds then NaN else Dec (apply_sign neg (dec_val ds)) 0.

(** ** Values *)

#[warnings="-register-all"]
Inductive jsval : Type :=
| VNull
| VBool (b : bool)
| VNum (n : jsnum)
| VStr (s : string)
| VArr (l : list jsval)
| VObj (l : list (string * jsval)).

(** An object whose property values have type [A], in enumeration order. *)
Definition obj (A : Type) : Type := list (string * A).

Fixpoint obj_get {A} (k : string) (o : obj A) : option A :=
  match o with
  | [] => None
  | (k', v) :: r => if String.eqb k k' then Some v else obj_get k r
  end.

Definition obj_keys {A} (o : obj A) : list string := map fst o.

(** The names of the members that every plain object inherits from
    [Object.prototype]. *)
Definition inherited (k : string) : bool :=
  existsb (String.eqb k)
    ["constructor"; "hasOwnProperty"; "isPrototypeOf";
     "propertyIsEnumerable"; "toLocaleString"; "toString"; "valueOf";
     "__proto__"; "__defineGetter__"; "__defineSetter__";
     "__lookupGetter__"; "__lookupSetter__"].

(** What the read [o[k]] finds on a plain object: a property of the
    object, else the member that the object inherits under the name [k] (a
    function, or the object [Object.prototype] itself under [__proto__]),
    else [undefined]. *)
Inductive member (A : Type) : Type :=
| Own (a : A)
| Inherited (k : string)
| Absent.
Arguments Own {A} a.
Arguments Inherited {A} k.
Arguments Absent {A}.

Definition read {A} (k : string) (o : obj A) : member A :=
  match obj_get k o with
  | Some a => Own a
  | None => if inherited k then Inherited k else Absent
  end.

(** An array index: the canonical numeral of an integer below [2^32 - 1]. *)
Definition array_index (k : string) : option Z :=
  match k with
  | EmptyString => None
  | String c r =>
      let '(ds, rest) := span is_digit k in
      if (str_empty rest && (str_empty r || negb (Ascii.eqb c "0")))%bool
      then if dec_val ds <? 4294967295 then Some (dec_val ds) else None
      else None
  end.

Fixpoint obj_replace {A} (k : string) (v : A) (o : obj A) : obj A :=
  match o with
  | [] => []
  | (k', v') :: r =>
      if String.eqb k k' then (k', v) :: r else (k', v') :: obj_replace k v r
  end.

(** A new array-index key goes after the smaller indices and before
    everything else. *)
Fixpoint obj_insert_index {A} (i : Z) (k : string) (v : A) (o : obj A)
  : obj A :=
  match o with
  | [] => [(k, v)]
  | (k', v') :: r =>
      match array_index k' with
      | Some j => if j <? i then (k', v') :: obj_insert_index i k v r
                  else (k, v) :: o
      | None => (k, v) :: o
      end
  end.

(** Property assignment [o[k] = v]. *)
Definition obj_set {A} (k : string) (v : A) (o : obj A) : obj A :=
  match obj_get k o with
  | Some _ => obj_replace k v o
  | None =>
      match array_index k with
      | Some i => obj_insert_index i k v o
      | None => (o ++ [(k, v)])%list
      end
  end.

(** Truthiness of a value. *)
Definition truthy (v : jsval) : bool :=
  match v with
  | VNull => false
  | VBool b => b
  | VNum n => negb (isNaN n || num_is_zero n)
  | VStr s => negb (str_empty s)
  | VArr _ | VObj _ => true
  end.

(** Truthiness of a possibly undefined value. *)
Definition truthy_opt (v : option jsval) : bool :=
  match v with Some x => truthy x | None => false end.

Definition truthy_str (s : option string) : bool :=
  match s with Some x => negb (str_empty x) | None => false end.

Definition typeof (v : jsval) : string :=
  match v with
  | VNull | VArr _ | VObj _ => "object"
  | VBool _ => "boolean"
  | VNum _ => "number"
  | VStr _ => "string"
  end.

(** [a === b] when [a] and [b] are not one and the same array or object:
    operands of different types are never strictly equal, and an array or
    an object is strictly equal to itself only. *)
Definition strict_equal (a b : jsval) : bool :=
  match a, b with
  | VNull, VNull => true
  | VBool x, VBool y => Bool.eqb x y
  | VNum x, VNum y => num_eqb x y
  | VStr x, VStr y => String.eqb x y
  | _, _ => false
  end.

Definition isArray (v : jsval) : bool :=
  match v with VArr _ => true | _ => false end.

(** [String(v)]; inside [Array.prototype.join] a [null] element is the
    empty string. *)
Fixpoint to_string (v : jsval) : string :=
  match v with
  | VNull => "null"
  | VBool b => if b then "true" else "false"
  | VNum n => num_to_string n
  | VStr s => s
  | VArr l =>
      join "," (map (fun x => match x with
                              | VNull => EmptyString
                              | _ => to_string x
                              end) l)
  | VObj _ => "[object Object]"
  end.

Definition element_string (v : jsval) : string :=
  match v with VNull => EmptyString | _ => to_string v end.

(** [Number(v)]. *)
Definition to_number (v : jsval) : jsnum :=
  match v with
  | VNull => Dec 0 0
  | VBool b => if b then Dec 1 0 else Dec 0 0
  | VNum n => n
  | VStr s => string_to_number s
  | VArr _ => string_to_number (to_string v)
  | VObj _ => NaN
  end.

(** [parseInt(n, 10)] for a number [n]: the argument is converted to a
    string first. *)
Definition parseInt (n : jsnum) : jsnum := parseInt_string (num_to_string n).

(** Exceptions and results. *)
Inductive exn : Type :=
| TypeError (msg : string)
| SyntaxError (msg : string)
| Error (msg : string).

Definition exn_message (e : exn) : string :=
  match e with TypeError m | SyntaxError m | Error m => m end.

Inductive res (A : Type) : Type :=
| Ok (a : A)
| Throw (e : exn).
Arguments Ok {A} a.
Arguments Throw {A} e.

Definition bind {A B} (r : res A) (f : A -> res B) : res B :=
  match r with Ok a => f a | Throw e => Throw e end.

Notation "x <- r ;; k" := (bind r (fun x => k))
  (at level 61, r at next level, right associativity).

(** A loop [forEach] whose body may throw. *)
Fixpoint for_each {A S} (l : list A) (body : A -> S -> res S) (s : S)
  : res S :=
  match l with
  | [] => Ok s
  | x :: r => s' <- body x s ;; for_each r body s'
  end.

Fixpoint index_entries {A} (i : Z) (l : list A) : list (string * A) :=
  match l with
  | [] => []
  | x :: r => (Z_digits i, x) :: index_entries (i + 1) r
  end.

Fixpoint chars (s : string) : list jsval :=
  match s with
  | EmptyString => []
  | String c r => VStr (String c EmptyString) :: chars r
  end.

Definition cannot_convert : exn :=
  TypeError "Cannot convert undefined or null to object".

(** [Object.entries(v)] for a possibly undefined [v]. *)
Definition entries (v : option jsval) : res (list (string * jsval)) :=
  match v with
  | None | Some VNull => Throw cannot_convert
  | Some (VBool _) | Some (VNum _) => Ok []
  | Some (VStr s) => Ok (index_entries 0 (chars s))
  | Some (VArr l) => Ok (index_entries 0 l)
  | Some (VObj l) => Ok l
  end.

(** [Object.entries(v).toString()]: every entry is the array [[k, x]]. *)
Definition entries_text (l : list (string * jsval)) : string :=
  join "," (map (fun '(k, x) => k ++ "," ++ element_string x) l).

Definition entries_string (v : option jsval) : res string :=
  l <- entries v ;; Ok (entries_text l).

(** ** [object-hash]

    The text that the library digests: type tags, array elements in order,
    object properties sorted by key.  The digest itself is taken to be
    injective, so two values have the same hash when their texts agree. *)

Fixpoint insert_sorted (k : string) (t : string) (l : list (string * string))
  : list (string * string) :=
  match l with
  | [] => [(k, t)]
  | (k', t') :: r =>
      if String.leb k k' then (k, t) :: l else (k', t') :: insert_sorted k t r
  end.

Definition sort_by_key (l : list (string * string)) : list (string * string) :=
  fold_right (fun '(k, t) acc => insert_sorted k t acc) [] l.

Definition hash_string (s : string) : string :=
  "string:" ++ Z_digits (str_len s) ++ ":" ++ s.

Fixpoint hash_text (v : jsval) : string :=
  match v with
  | VNull => "Null"
  | VBool b => "bool:" ++ (if b then "true" else "false")
  | VNum n => "number:" ++ num_to_string n
  | VStr s => hash_string s
  | VArr l =>
      "array:" ++ Z_digits (Z.of_nat (List.length l)) ++ ":"
      ++ String.concat EmptyString (map hash_text l)
  | VObj l =>
      "object:" ++ Z_digits (Z.of_nat (List.length l)) ++ ":"
      ++ String.concat EmptyString
           (map (fun '(k, t) => hash_string k ++ ":" ++ t ++ ",")
              (sort_by_key (map (fun '(k, x) => (k, hash_text x)) l)))
  end.

(** [hash(v)]: the library refuses [undefined]. *)
Definition hash (v : option jsval) : res string :=
  match v with
  | Some x => Ok (hash_text x)
  | None => Throw (Error "Object argument required.")
  end.

(** ** [JSON.parse] *)

Definition is_json_space (c : ascii) : bool :=
  let n := char_code c in
  (n =? 32) || (n =? 9) || (n =? 10) || (n =? 13).

Fixpoint skip_ws (s : string) : string :=
  match s with
  | String c r => if is_json_space c then skip_ws r else s
  | EmptyString => s
  end.

Definition byte (z : Z) : ascii := ascii_of_nat (Z.to_nat z).

(** UTF-8 bytes of a code unit given by four hexadecimal digits. *)
Definition utf8 (cp : Z) : string :=
  if cp <? 128 then String (byte cp) EmptyString
  else if cp <? 2048 then
    String (byte (192 + cp / 64)) (String (byte (128 + cp mod 64)) EmptyString)
  else
    String (byte (224 + cp / 4096))
      (String (byte (128 + (cp / 64) mod 64))
         (String (byte (128 + cp mod 64)) EmptyString)).

(** The characters of a string literal after its opening quote. *)
Fixpoint json_string (s : string) : option (string * string) :=
  match s with
  | EmptyString => None
  | String c r =>
      if char_code c =? 34 then Some (EmptyString, r)
      else if char_code c <? 32 then None
      else if char_code c =? 92 then
        match r with
        | String e r' =>
            let simple (x : Z) :=
              match json_string r' with
              | Some (t, rest) => Some (String (byte x) t, rest)
              | None => None
              end in
            match char_code e with
            | 34 => simple 34 | 92 => simple 92 | 47 => simple 47
            | 98 => simple 8 | 102 => simple 12 | 110 => simple 10
            | 114 => simple 13 | 116 => simple 9
            | 117 =>
                match r' with
                | String h1 (String h2 (String h3 (String h4 r''))) =>
                    match digits_val 16
                            (String h1 (String h2 (String h3
                               (String h4 EmptyString)))),
                          json_string r'' with
                    | Some cp, Some (t, rest) => Some (utf8 cp ++ t, rest)
                    | _, _ => None
                    end
                | _ => None
                end
            | _ => None
            end
        | EmptyString => None
        end
      else match json_string r with
           | Some (t, rest) => Some (String c t, rest)
           | None => None
           end
  end.

(** A number literal: [-]? int frac? exp?, with no leading zero. *)
Definition json_number (s : string) : option (jsnum * string) :=
  let '(neg, u) := match s with
                   | String "-" r => (true, r)
                   | _ => (false, s)
                   end in
  let '(ip, r1) := span is_digit u in
  let int_ok := match ip with
                | EmptyString => false
                | String "0" (String _ _) => false
                | _ => true
                end in
  let '(fp, r2, frac_ok) :=
    match r1 with
    | String "." r => let '(f, r') := span is_digit r in
                      (f, r', negb (str_empty f))
    | _ => (EmptyString, r1, true)
    end in
  let '(x, r3, exp_ok) :=
    match r2 with
    | String c r =>
        if (Ascii.eqb c "e" || Ascii.eqb c "E")%bool then
          let '(eneg, d) := sign_split r in
          let '(ds, r') := span is_digit d in
          (apply_sign eneg (dec_val ds), r', negb (str_empty ds))
        else (0, r2, true)
    | EmptyString => (0, r2, true)
    end in
  if (int_ok && frac_ok && exp_ok)%bool
  then Some (Dec (apply_sign neg (dec_val (ip ++ fp))) (x - str_len fp), r3)
  else None.

Definition strip_prefix (p s : string) : option string :=
  if String.prefix p s
  then Some (substring (String.length p) (String.length s - String.length p) s)
  else None.

(** Recursive descent.  [fuel] bounds the nesting depth, and the inner
    loops are bounded by the length of what is left to read. *)
Fixpoint json_value (fuel : nat) (s : string) : option (jsval * string) :=
  match fuel with
  | O => None
  | S k =>
      let elements :=
        fix elements (n : nat) (acc : list jsval) (t : string)
          : option (jsval * string) :=
          match n with
          | O => None
          | S n' =>
              match json_value k t with
              | Some (v, r) =>
                  match skip_ws r with
                  | String "," r' => elements n' (v :: acc) r'
                  | String "]" r' => Some (VArr (rev (v :: acc)), r')
                  | _ => None
                  end
              | None => None
              end
          end in
      let members :=
        fix members (n : nat) (acc : obj jsval) (t : string)
          : option (jsval * string) :=
          match n with
          | O => None
          | S n' =>
              match skip_ws t with
              | String q t1 =>
                  if char_code q =? 34 then
                    match json_string t1 with
                    | Some (key, t2) =>
                        match skip_ws t2 with
                        | String ":" t3 =>
                            match json_value k t3 with
                            | Some (v, r) =>
                                match skip_ws r with
                                | String "," r' =>
                                    members n' (obj_set key v acc) r'
                                | String "}" r' =>
                                    Some (VObj (obj_set key v acc), r')
                                | _ => None
                                end
                            | None => None
                            end
                        | _ => None
                        end
                    | None => None
                    end
                  else None
              | EmptyString => None
              end
          end in
      match skip_ws s with
      | String c r =>
          if char_code c =? 34 then
            match json_string r with
            | Some (t, rest) => Some (VStr t, rest)
            | None => None
            end
          else if Ascii.eqb c "[" then
            match skip_ws r with
            | String "]" r' => Some (VArr [], r')
            | _ => elements (String.length r) [] r
            end
          else if Ascii.eqb c "{" then
            match skip_ws r with
            | String "}" r' => Some (VObj [], r')
            | _ => members (String.length r) [] r
            end
          else if (Ascii.eqb c "-" || is_digit c)%bool then
            match json_number (String c r) with
            | Some (n, rest) => Some (VNum n, rest)
            | None => None
            end
          else
            match strip_prefix "true" (String c r),
                  strip_prefix "false" (String c r),
                  strip_prefix "null" (String c r) with
            | Some rest, _, _ => Some (VBool true, rest)
            | _, Some rest, _ => Some (VBool false, rest)
            | _, _, Some rest => Some (VNull, rest)
            | _, _, _ => None
            end
      | EmptyString => None
      end
  end.

(** [JSON.parse(text)]; [None] stands for the [SyntaxError] it throws. *)
Definition JSON_parse (text : string) : option jsval :=
  match json_value (S (String.length text)) text with
  | Some (v, rest) => if str_empty (skip_ws rest) then Some v else None
  | None => None
  end.

(** ** The declaration of an operation *)

Record Example : Type := { value : option jsval }.

(** What a media type entry and a header entry both are: an optional schema
    and optional named examples. *)
Record Descriptor : Type := {
  d_schema : option jsval;
  d_examples : option (obj Example)
}.

(** The schema of a parameter; only [type] and [enum] are read. *)
Record Schema : Type := {
  type : option string;
  enum : option (list jsval)
}.

Record Param : Type := {
  in_ : string;
  name : string;
  required : bool;
  deprecated : bool;
  schema : option Schema;
  examples : option (obj Example)
}.

Record RequestBody : Type := {
  rb_required : bool;
  rb_content : option (obj Descriptor)
}.

Record Response : Type := {
  headers : option (obj Descriptor);
  content : option (obj Descriptor)
}.

(** The fields of [Path]; [parameters] is never undefined, the constructor
    stores [[]] in its place. *)
Record Path : Type := {
  uri : string;
  httpMethod : string;
  parameters : list Param;
  requestBody : option RequestBody;
  responses : obj Response;
  security : option jsval
}.

Definition set_responses (p : Path) (rs : obj Response) : Path :=
  {| uri := uri p; httpMethod := httpMethod p; parameters := parameters p;
     requestBody := requestBody p; responses := rs; security := security p |}.

(** The argument of [validateRequestParameters]. *)
Record Request : Type := {
  req_headers : obj jsval;
  req_query : obj jsval;
  req_path : obj jsval;
  req_cookies : obj jsval;
  req_body : option jsval
}.

(** ** Collaborators *)

Record Violation : Type := { dataPath : string; message : string }.

Inductive log_level : Type := Warn | Debug.

Definition log_entry : Type := (log_level * string)%type.

(** What the class takes from other modules, none of them among the
    sources: the constant [CONSTANTS.FIRST_RESPONSE], [util.inspect] (on a
    value, and on the member that an object inherits under a name),
    [new PathParser(template).test(url)] ([None] is its [null]),
    [ResponseGenerator.generate] and [SchemaValidator.validate]. *)
Class Collaborators : Type := {
  FIRST_RESPONSE : string;
  inspect : jsval -> string;
  inspect_member : string -> string;
  path_test : string -> string -> option (obj jsval);
  generate : Descriptor -> option string -> jsval;
  schema_validate : jsval -> jsval -> res (list Violation)
}.

(** ** Validation *)

Section Validation.
Context {C : Collaborators}.

Definition is_boolean_text (v : jsval) : bool :=
  match v with
  | VBool _ => true
  | VStr s => String.eqb s "true" || String.eqb s "false"
  | _ => false
  end.

(** [isValidType(type, value)]: [true] reports an invalid value. *)
Definition isValidType (ty : option string) (v : jsval) : res bool :=
  match ty with
  | Some t =>
      if String.eqb t "array" then Ok (negb (isArray v))
      else if String.eqb t "object" then
        Ok (negb (String.eqb (typeof v) "object") || isArray v)
      else if String.eqb t "string" then
        Ok (negb (String.eqb (typeof v) "string"))
      else if String.eqb t "number" then Ok (isNaN (to_number v))
      else if String.eqb t "integer" then
        Ok (isNaN (to_number v)
            || negb (num_eqb (parseInt (to_number v)) (to_number v)))
      else if String.eqb t "boolean" then Ok (negb (is_boolean_text v))
      else Throw (Error ("Invalid type declaration " ++ t))
  | None => Throw (Error "Invalid type declaration undefined")
  end.

Definition type_text (ty : option string) : string :=
  match ty with Some t => t | None => "undefined" end.

(** [validateParameterType({in, name, schema}, value)] *)
Definition validateParameterType (paramIn nm : string) (sch : Schema)
  (v : jsval) : option string :=
  match isValidType (type sch) v with
  | Ok true =>
      Some ("Invalid " ++ paramIn ++ " param " ++ nm
            ++ ". Expected value of type " ++ type_text (type sch)
            ++ " but received " ++ inspect v)
  | Ok false => None
  | Throw e => Some (exn_message e ++ " for " ++ paramIn ++ " param " ++ nm)
  end.

(** [Array.prototype.includes] compares with SameValueZero; an array or an
    object of the request is never identical to one of the declaration. *)
Definition same_value_zero (a b : jsval) : bool :=
  match a, b with
  | VNull, VNull => true
  | VBool x, VBool y => Bool.eqb x y
  | VNum x, VNum y => num_eqb x y || (isNaN x && isNaN y)
  | VStr x, VStr y => String.eqb x y
  | _, _ => false
  end.

Definition includes (l : list jsval) (v : jsval) : bool :=
  existsb (fun x => same_value_zero x v) l.

Definition isValidEnumValue (possibleValues : option (list jsval))
  (v : jsval) : bool :=
  match possibleValues with
  | None => true
  | Some l => (List.length l =? 0)%nat || includes l v
  end.

(** [validateParameterEnum({in, name, schema}, value)]; [inspect] stands
    for [util.inspect] also where it is the callback of [map]. *)
Definition validateParameterEnum (paramIn nm : string) (sch : Schema)
  (v : jsval) : option string :=
  if isValidEnumValue (enum sch) v then None
  else
    let enumAsString :=
      join ", " (map inspect (match enum sch with Some l => l | None => [] end))
    in
    Some ("Invalid " ++ paramIn ++ " param " ++ nm ++ ". Expected enum of ["
          ++ enumAsString ++ "] but received " ++ inspect v).

(** [validateParameterSchema(parameter, value)], with its warnings. *)
Definition validateParameterSchema (p : Param) (v : jsval)
  : option string * list log_entry :=
  match schema p with
  | None =>
      (None, [(Warn, "Missing schema for " ++ in_ p ++ " param " ++ name p)])
  | Some sch =>
      if truthy_str (type sch) then
        (match validateParameterType (in_ p) (name p) sch v with
         | Some m => Some m
         | None => validateParameterEnum (in_ p) (name p) sch v
         end, [])
      else
        (None,
         [(Warn, "Missing schema type for " ++ in_ p ++ " param " ++ name p)])
  end.

(** [isValidType(type, value)] when [value] is the member that the
    request object inherits under the name [k]: a function, or the object
    [Object.prototype] under [__proto__].  Neither is an array, a string or
    a boolean, [Number(value)] is [NaN], and [typeof] is ['function'] for
    the one and ['object'] for the other. *)
Definition isValidType_member (ty : option string) (k : string) : res bool :=
  match ty with
  | Some t =>
      if String.eqb t "array" then Ok true
      else if String.eqb t "object" then Ok (negb (String.eqb k "__proto__"))
      else if String.eqb t "string" then Ok true
      else if String.eqb t "number" then Ok true
      else if String.eqb t "integer" then Ok true
      else if String.eqb t "boolean" then Ok true
      else Throw (Error ("Invalid type declaration " ++ t))
  | None => Throw (Error "Invalid type declaration undefined")
  end.

(** [validateParameterType], [isValidEnumValue] (no enumeration of a
    declaration holds the member), [validateParameterEnum] and
    [validateParameterSchema] for such a [value]. *)
Definition validateParameterType_member (paramIn nm : string) (sch : Schema)
  (k : string) : option string :=
  match isValidType_member (type sch) k with
  | Ok true =>
      Some ("Invalid " ++ paramIn ++ " param " ++ nm
            ++ ". Expected value of type " ++ type_text (type sch)
            ++ " but received " ++ inspect_member k)
  | Ok false => None
  | Throw e => Some (exn_message e ++ " for " ++ paramIn ++ " param " ++ nm)
  end.

Definition isValidEnumValue_member (possibleValues : option (list jsval))
  : bool :=
  match possibleValues with
  | None => true
  | Some l => (List.length l =? 0)%nat
  end.

Definition validateParameterEnum_member (paramIn nm : string) (sch : Schema)
  (k : string) : option string :=
  if isValidEnumValue_member (enum sch) then None
  else
    let enumAsString :=
      join ", " (map inspect (match enum sch with Some l => l | None => [] end))
    in
    Some ("Invalid " ++ paramIn ++ " param " ++ nm ++ ". Expected enum of ["
          ++ enumAsString ++ "] but received " ++ inspect_member k).

Definition validateParameterSchema_member (p : Param) (k : string)
  : option string * list log_entry :=
  match schema p with
  | None =>
      (None, [(Warn, "Missing schema for " ++ in_ p ++ " param " ++ name p)])
  | Some sch =>
      if truthy_str (type sch) then
        (match validateParameterType_member (in_ p) (name p) sch k with
         | Some m => Some m
         | None => validateParameterEnum_member (in_ p) (name p) sch k
         end, [])
      else
        (None,
         [(Warn, "Missing schema type for " ++ in_ p ++ " param " ++ name p)])
  end.

(** [_validateParameter(parameter, requestParameters)]; the request
    object is a plain object, and [requestParameters[name]] is
    [undefined] only when the object neither has nor inherits the name. *)
Definition _validateParameter (p : Param) (requestParameters : obj jsval)
  : option string * list log_entry :=
  let w := if deprecated p
           then [(Warn, "Using deprecated " ++ in_ p ++ " param " ++ name p)]
           else [] in
  match read (name p) requestParameters with
  | Absent =>
      if required p
      then (Some ("Missing required " ++ in_ p ++ " param " ++ name p), [])
      else (None, [])
  | Own v =>
      let '(r, w') := validateParameterSchema p v in
      (r, (w ++ w')%list)
  | Inherited k =>
      let '(r, w') := validateParameterSchema_member p k in
      (r, (w ++ w')%list)
  end.

Definition with_name (p : Param) (n : string) : Param :=
  {| in_ := in_ p; name := n; required := required p;
     deprecated := deprecated p; schema := schema p; examples := examples p |}.

(** [validateParameter(parameter, {headers, query, path, cookies})] *)
Definition validateParameter (p : Param) (r : Request)
  : option string * list log_entry :=
  if String.eqb (in_ p) "header" then
    _validateParameter (with_name p (toLowerCase (name p))) (req_headers r)
  else if String.eqb (in_ p) "query" then _validateParameter p (req_query r)
  else if String.eqb (in_ p) "path" then _validateParameter p (req_path r)
  else if String.eqb (in_ p) "cookie" then
    _validateParameter p (req_cookies r)
  else
    (Some ("Invalid declaration for " ++ in_ p ++ " param " ++ name p), []).

(** [JSON.parse(JSON.stringify(v))]: a number that is not finite comes
    back as [null]. *)
Fixpoint deep_clone (v : jsval) : jsval :=
  match v with
  | VNum NaN | VNum (Infinity _) => VNull
  | VArr l => VArr (map deep_clone l)
  | VObj l => VObj (map (fun '(k, x) => (k, deep_clone x)) l)
  | _ => v
  end.

Definition strip_dot (s : string) : string :=
  match s with String "." r => r | _ => s end.

Definition body_message (e : Violation) : string :=
  let cleanDataPath := strip_dot (dataPath e) in
  "Invalid request body:"
  ++ (if str_empty cleanDataPath then EmptyString
      else " '" ++ cleanDataPath ++ "'")
  ++ " " ++ message e.

(** The schema under [content['application/json']], when all three are
    there. *)
Definition json_schema (rb : RequestBody) : option jsval :=
  match rb_content rb with
  | Some c =>
      match obj_get "application/json" c with
      | Some d => if truthy_opt (d_schema d) then d_schema d else None
      | None => None
      end
  | None => None
  end.

(** [validateRequestBody(requestBody)]; the stack that the [catch] logs
    is represented by the message of the exception. *)
Definition validateRequestBody (p : Path) (body : option jsval)
  : list string * list log_entry :=
  match requestBody p with
  | None => ([], [])
  | Some rb =>
      match body with
      | Some b =>
          if truthy b then
            match json_schema rb with
            | None =>
                ([], [(Warn,
                       "Missing application/json content for request body")])
            | Some sch =>
                match schema_validate (deep_clone b) sch with
                | Ok validationErrors => (map body_message validationErrors, [])
                | Throw e => ([exn_message e], [(Debug, exn_message e)])
                end
            end
          else if rb_required rb then (["Missing required request body"], [])
          else ([], [])
      | None =>
          if rb_required rb then (["Missing required request body"], [])
          else ([], [])
      end
  end.

(** The values that [filter(validation => !!validation)] keeps. *)
Fixpoint keep_truthy (l : list (option string)) : list string :=
  match l with
  | [] => []
  | Some m :: r => if str_empty m then keep_truthy r else m :: keep_truthy r
  | None :: r => keep_truthy r
  end.

(** [validateRequestParameters({headers, query, path, cookies, requestBody})] *)
Definition validateRequestParameters (p : Path) (r : Request)
  : list string * list log_entry :=
  let '(bodyErrors, w) := validateRequestBody p (req_body r) in
  let results := map (fun q => validateParameter q r) (parameters p) in
  ((bodyErrors ++ keep_truthy (map fst results))%list,
   (w ++ List.concat (map snd results))%list).

End Validation.

(** ** Response resolution *)

Inductive nullable (A : Type) : Type :=
| Undefined
| Null
| Defined (a : A).
Arguments Undefined {A}.
Arguments Null {A}.
Arguments Defined {A} a.

(** [x && f(x)] for an object [x] that may be [undefined] or [null]. *)
Definition and_then {A B} (x : nullable A) (f : A -> B) : nullable B :=
  match x with
  | Undefined => Undefined
  | Null => Null
  | Defined a => Defined (f a)
  end.

Definition of_option {A} (x : option A) : nullable A :=
  match x with Some a => Defined a | None => Undefined end.

(** What [getResponseByStatusCode] and [getFirstResponse] return. *)
Record Selected : Type := {
  s_statusCode : string;
  s_schema : option Descriptor;
  s_responseMimeType : option string;
  s_headers : option (obj Descriptor)
}.

(** What [getFirstResponseByExampleName] returns. *)
Record Named : Type := {
  n_statusCode : jsval;
  n_body : jsval;
  n_responseMimeType : option string;
  n_headers : nullable (obj Descriptor)
}.

(** What [getResponse] returns. *)
Record Resolved : Type := {
  statusCode : jsval;
  r_headers : nullable (obj jsval);
  body : jsval;
  responseMimeType : option string
}.

(** [const [[k, v] = []] = Object.entries(o || {})] *)
Definition first_entry {A} (o : option (obj A)) : option (string * A) :=
  match o with
  | Some (e :: _) => Some e
  | _ => None
  end.

Definition select (code : string) (r : Response) : Selected :=
  {| s_statusCode := code;
     s_schema := option_map snd (first_entry (content r));
     s_responseMimeType := option_map fst (first_entry (content r));
     s_headers := headers r |}.

Definition RTag (exampleName : string) : Descriptor :=
  {| d_schema := None;
     d_examples := Some [("ex_01", {| value := Some (VStr exampleName) |})] |}.

(** The test of the callback given to [find]: the example and the mime
    type it takes from a response. *)
Definition named_example (exampleName : string) (r : Response)
  : option (jsval * option string) :=
  match first_entry (content r) with
  | Some (responseMimeType, responseContent) =>
      match d_examples responseContent with
      | Some exs =>
          if (0 <? List.length exs)%nat then
            match obj_get exampleName exs with
            | Some ex =>
                match value ex with
                | Some bestExample =>
                    if truthy bestExample
                    then Some (bestExample, Some responseMimeType)
                    else None
                | None => None
                end
            | None => None
            end
          else None
      | None => None
      end
  | None => None
  end.

(** The loop of [find]: at the first response that has the example, the
    header [RTag] is assigned on the headers of that response when they
    exist (on a new object otherwise) and the search stops.  The second
    component is the response map after the call. *)
Fixpoint find_named (exampleName : string) (rs : obj Response)
  : option (Named * obj Response) :=
  match rs with
  | [] => None
  | (code, r) :: rest =>
      match named_example exampleName r with
      | Some (bestExample, mime) =>
          let hs := obj_set "RTag" (RTag exampleName)
                      (match headers r with Some h => h | None => [] end) in
          let r' := match headers r with
                    | Some _ => {| headers := Some hs; content := content r |}
                    | None => r
                    end in
          Some ({| n_statusCode := VStr code; n_body := bestExample;
                   n_responseMimeType := mime; n_headers := Defined hs |},
                (code, r') :: rest)
      | None =>
          match find_named exampleName rest with
          | Some (n, rest') => Some (n, (code, r) :: rest')
          | None => None
          end
      end
  end.

Section Resolution.
Context {C : Collaborators}.

(** [getFirstResponse()]; destructuring the first entry of an empty map
    throws. *)
Definition getFirstResponse (p : Path) : res Selected :=
  match responses p with
  | [] => Throw (TypeError "undefined is not iterable")
  | (code, firstResponse) :: _ => Ok (select code firstResponse)
  end.

(** [getResponseByStatusCode(statusCode)]; a member that the response
    map inherits under the status code is truthy and has neither [content]
    nor [headers]. *)
Definition getResponseByStatusCode (p : Path) (code : string)
  : res Selected * list log_entry :=
  match read code (responses p) with
  | Absent =>
      (getFirstResponse p,
       [(Warn, "Could not find a response for status code " ++ code
               ++ ". Responding with first response")])
  | Own preferredResponse => (Ok (select code preferredResponse), [])
  | Inherited _ =>
      (Ok (select code {| headers := None; content := None |}), [])
  end.

(** [generateResponseHeaders(headersSchema)] *)
Definition generateResponseHeaders (headersSchema : obj Descriptor)
  : obj jsval :=
  fold_left (fun responseHeaders '(headerName, headerData) =>
               obj_set headerName (generate headerData None) responseHeaders)
    headersSchema [].

(** [getFirstResponseByExampleName(preferredExampleName)]: the result, the
    operation after the call and the warnings. *)
Definition getFirstResponseByExampleName (p : Path)
  (preferredExampleName : option string) : Named * Path * list log_entry :=
  match preferredExampleName with
  | Some nm =>
      if str_empty nm then
        ({| n_statusCode := VNum (Dec 400 0); n_body := VNull;
            n_responseMimeType := Some "application/json";
            n_headers := Null |}, p, [])
      else
        match find_named nm (responses p) with
        | Some (n, rs) => (n, set_responses p rs, [])
        | None =>
            ({| n_statusCode := VNum (Dec 400 0);
                n_body :=
                  VObj [("message",
                         VStr ("SYSTEM: Could not find a response for example name '"
                               ++ nm ++ "'"))];
                n_responseMimeType := Some "application/json";
                n_headers := Defined [("RTag", RTag nm)] |},
             p,
             [(Warn, "Could not find a response for example name " ++ nm
                     ++ ". Responding with first response")])
        end
  | None =>
      ({| n_statusCode := VNum (Dec 400 0); n_body := VNull;
          n_responseMimeType := Some "application/json";
          n_headers := Null |}, p, [])
  end.

Definition is_first_response (exampleName : option string) : bool :=
  match exampleName with
  | Some nm => String.eqb nm FIRST_RESPONSE
  | None => false
  end.

(** [getResponse(preferredStatusCode, preferredExampleName)]: the result
    (or the exception), the operation after the call and the warnings. *)
Definition getResponse (p : Path)
  (preferredStatusCode preferredExampleName : option string)
  : res Resolved * Path * list log_entry :=
  if truthy_str preferredStatusCode || is_first_response preferredExampleName
  then
    let '(sel, w) :=
      match preferredStatusCode with
      | Some code =>
          if str_empty code then (getFirstResponse p, [])
          else getResponseByStatusCode p code
      | None => (getFirstResponse p, [])
      end in
    (s <- sel ;;
     Ok {| statusCode := VNum (string_to_number (s_statusCode s));
           r_headers := and_then (of_option (s_headers s))
                          generateResponseHeaders;
           body := match s_schema s with
                   | Some sch => generate sch preferredExampleName
                   | None => VNull
                   end;
           responseMimeType := s_responseMimeType s |},
     p, w)
  else
    let '(n, p', w) := getFirstResponseByExampleName p preferredExampleName in
    (Ok {| statusCode := n_statusCode n;
           r_headers := and_then (n_headers n) generateResponseHeaders;
           body := n_body n;
           responseMimeType := n_responseMimeType n |},
     p', w).

End Resolution.

(** ** Example matching *)

(** [if(!t[k]) t[k] = 0; t[k]++] on a tally [t], a plain object that
    starts empty.  Under a name that [t] inherits and does not have, the
    member read is truthy, [++] makes [NaN] of it and the assignment makes
    it a property of [t], except under [__proto__], whose setter ignores a
    number.  A counter is a positive count or [NaN]; [NaN] is written [0],
    a number that the function never stores: the function tests a counter
    [c] by [!c], by [c > 0] and by [d === c] for a positive [d], where
    [NaN] and [0] agree, and it reads otherwise only the counter of a name
    that it has selected, which is a positive count. *)
Definition bump (k : string) (t : obj Z) : obj Z :=
  match read k t with
  | Inherited _ => if String.eqb k "__proto__" then t else obj_set k 0 t
  | _ =>
      let t0 := match obj_get k t with
                | Some n => if n =? 0 then obj_set k 0 t else t
                | None => obj_set k 0 t
                end in
      match obj_get k t0 with
      | Some n => obj_set k (n + 1) t0
      | None => t0
      end
  end.

(** One increment for every name of an [examples] map. *)
Definition tally_names {A} (exs : obj A) (t : obj Z) : obj Z :=
  fold_left (fun acc exName => bump exName acc) (obj_keys exs) t.

Definition tally_parameters (ps : list Param) (t : obj Z) : obj Z :=
  fold_left (fun acc param =>
               match examples param with
               | Some exs => tally_names exs acc
               | None => acc
               end) ps t.

Definition tally_content (c : obj Descriptor) (t : obj Z) : obj Z :=
  fold_left (fun acc '(_, requestContentTypeData) =>
               match d_examples requestContentTypeData with
               | Some exs => tally_names exs acc
               | None => acc
               end) c t.

(** The tally [totalExamples] of the first two loops. *)
Definition totalExamples (p : Path) : obj Z :=
  let t := tally_parameters (parameters p) [] in
  match requestBody p with
  | Some rb =>
      match rb_content rb with
      | Some c => tally_content c t
      | None => t
      end
  | None => t
  end.

(** The loop over the examples of one declared parameter: an example
    matches when [Object.entries(...).toString()] agrees on its value and on
    the value of the request. *)
Definition match_examples (exs : obj Example) (actual : jsval)
  (matchExamples : obj Z) : res (obj Z) :=
  for_each exs
    (fun '(exampleName, exampleData) m =>
       a <- entries_string (value exampleData) ;;
       b <- entries_string (Some actual) ;;
       Ok (if String.eqb a b then bump exampleName m else m))
    matchExamples.

(** The loop over the entries of one facet of the request; [declared]
    tells whether a parameter is the declaration of a key. *)
Definition match_facet (ps : list Param)
  (declared : Param -> string -> bool) (facet : list (string * jsval))
  (matchExamples : obj Z) : res (obj Z) :=
  for_each facet
    (fun '(key, actual) m =>
       match find (fun x => declared x key) ps with
       | Some define =>
           match examples define with
           | Some exs => match_examples exs actual m
           | None => Ok m
           end
       | None => Ok m
       end)
    matchExamples.

Definition is_path (x : Param) (key : string) : bool :=
  String.eqb (in_ x) "path" && String.eqb (name x) key.

Definition is_query (x : Param) (key : string) : bool :=
  String.eqb (in_ x) "query" && String.eqb (name x) key.

Definition is_header (x : Param) (key : string) : bool :=
  String.eqb (in_ x) "header"
  && String.eqb (toLowerCase (name x)) (toLowerCase key).

Fixpoint has_char (c : ascii) (s : string) : bool :=
  match s with
  | EmptyString => false
  | String d r => Ascii.eqb c d || has_char c r
  end.

(** [uri.replace(/{/g, ':').replace(/}/g, '')] *)
Fixpoint template (s : string) : string :=
  match s with
  | EmptyString => EmptyString
  | String c r =>
      if Ascii.eqb c "{" then String ":" (template r)
      else if Ascii.eqb c "}" then template r
      else String c (template r)
  end.

Definition json_parse (text : string) : res jsval :=
  match JSON_parse text with
  | Some v => Ok v
  | None => Throw (SyntaxError "Unexpected token in JSON")
  end.

(** The loop over the content entries of the declared request body: an
    example matches when its hash is the hash of the body. *)
Definition match_body (c : obj Descriptor) (bodyObject : jsval)
  (matchExamples : obj Z) : res (obj Z) :=
  for_each c
    (fun '(_, requestContentTypeData) m =>
       match d_examples requestContentTypeData with
       | None => Throw cannot_convert
       | Some exs =>
           for_each exs
             (fun '(exampleName, exampleData) m' =>
                a <- hash (value exampleData) ;;
                b <- hash (Some bodyObject) ;;
                Ok (if String.eqb a b then bump exampleName m' else m'))
             m
       end)
    matchExamples.

Definition lookup_count (k : option string) (t : obj Z) : option Z :=
  match k with Some nm => obj_get nm t | None => None end.

(** [a > b] where [b] may be [undefined]. *)
Definition gt_count (a : Z) (b : option Z) : bool :=
  match b with Some y => y <? a | None => false end.

(** [a === b] where [b] may be [undefined]. *)
Definition eq_count (a : Z) (b : option Z) : bool :=
  match b with Some y => a =? y | None => false end.

(** The body of the last loop. *)
Definition select_step (total : obj Z) (responseName : option string)
  (matchItem : string * Z) : option string :=
  let '(matchName, matchValue) := matchItem in
  if (0 <? matchValue) && eq_count matchValue (obj_get matchName total) then
    if negb (truthy_str responseName)
       || gt_count matchValue (lookup_count responseName total)
    then Some matchName
    else responseName
  else responseName.

Definition select_winner (total matchExamples : obj Z) : option string :=
  fold_left (select_step total) matchExamples None.

Section Matching.
Context {C : Collaborators}.

Definition match_path (p : Path) (url : string) (m : obj Z) : res (obj Z) :=
  if has_char "{" (uri p) then
    pathVariable <- match path_test (template (uri p)) url with
                    | Some o => Ok o
                    | None => Throw cannot_convert
                    end ;;
    match_facet (parameters p) is_path pathVariable m
  else Ok m.

Definition match_query (p : Path) (rawQuery : option string) (m : obj Z)
  : res (obj Z) :=
  match rawQuery with
  | Some text =>
      if str_empty text then Ok m
      else
        queries <- json_parse text ;;
        es <- entries (Some queries) ;;
        match_facet (parameters p) is_query es m
  | None => Ok m
  end.

Definition match_headers (p : Path) (requestHeaders : option (obj jsval))
  (m : obj Z) : res (obj Z) :=
  match requestHeaders with
  | Some hs => match_facet (parameters p) is_header hs m
  | None => Ok m
  end.

Definition declared_content (p : Path) : option (obj Descriptor) :=
  match requestBody p with
  | Some rb => rb_content rb
  | None => None
  end.

Definition match_request_body (p : Path) (httpRequestBody : option jsval)
  (m : obj Z) : res (obj Z) :=
  match httpRequestBody, declared_content p with
  | Some b, Some c =>
      if truthy b then
        bodyObject <- match b with
                      | VStr text => json_parse text
                      | _ => Ok b
                      end ;;
        match_body c bodyObject m
      else Ok m
  | _, _ => Ok m
  end.

(** The tally [matchExamples] after the four facet loops. *)
Definition matchExamples (p : Path) (url : string)
  (rawQuery : option string) (httpRequestBody : option jsval)
  (requestHeaders : option (obj jsval)) : res (obj Z) :=
  m1 <- match_path p url [] ;;
  m2 <- match_query p rawQuery m1 ;;
  m3 <- match_headers p requestHeaders m2 ;;
  match_request_body p httpRequestBody m3.

(** [findPreferredExampleByRequest(url, rawQuery, httpRequestBody,
    requestHeaders)]; [Ok None] is the [undefined] of a [responseName]
    never assigned. *)
Definition findPreferredExampleByRequest (p : Path) (url : string)
  (rawQuery : option string) (httpRequestBody : option jsval)
  (requestHeaders : option (obj jsval)) : res (option string) :=
  let total := totalExamples p in
  if strict_equal (VArr (map VStr (obj_keys total))) (VNum (Dec 0 0))
  then Ok (Some FIRST_RESPONSE)
  else
    m <- matchExamples p url rawQuery httpRequestBody requestHeaders ;;
    Ok (select_winner total m).

(** The function [getResponse] of the request handler, after the
    preference header has been parsed. *)
Definition handler_getResponse (p : Path) (url : string)
  (query : option string) (preferredExampleName preferredStatusCode
  : option string) (body : option jsval) (hs : option (obj jsval))
  : res (res Resolved * Path * list log_entry) :=
  requestExampleName <- findPreferredExampleByRequest p url query body hs ;;
  Ok (getResponse p preferredStatusCode
        (if truthy_str preferredExampleName then preferredExampleName
         else requestExampleName)).

End Matching.

(** ** Notions used to state the properties *)

Section Notions.
Context {C : Collaborators}.

(** The messages of a parameter, as a list: one when it fails, none when
    it passes. *)
Definition failure (q : Param) (r : Request) : list string :=
  match fst (validateParameter q r) with
  | Some m => [m]
  | None => []
  end.

(** The request facet in which a declared parameter is looked up, and the
    key used. *)
Definition facet_of (q : Param) (r : Request) : option (obj jsval) :=
  if String.eqb (in_ q) "header" then Some (req_headers r)
  else if String.eqb (in_ q) "query" then Some (req_query r)
  else if String.eqb (in_ q) "path" then Some (req_path r)
  else if String.eqb (in_ q) "cookie" then Some (req_cookies r)
  else None.

Definition lookup_key (q : Param) : string :=
  if String.eqb (in_ q) "header" then toLowerCase (name q) else name q.

(** Whether a number is an integer. *)
Definition is_integer (n : jsnum) : bool :=
  match n with
  | Dec m e => if 0 <=? e then true else m mod 10 ^ (- e) =? 0
  | _ => false
  end.

(** The six types that [isValidType] knows. *)
Definition known_type (t : string) : bool :=
  existsb (String.eqb t)
    ["array"; "object"; "string"; "number"; "integer"; "boolean"].

(** Whether the primary content of a response declares an example under
    a name. *)
Definition declares_example (exampleName : string) (r : Response) : bool :=
  match first_entry (content r) with
  | Some (_, d) =>
      match d_examples d with
      | Some exs =>
          match obj_get exampleName exs with Some _ => true | None => false end
      | None => false
      end
  | None => false
  end.

Definition not_found_message (exampleName : string) : jsval :=
  VObj [("message",
         VStr ("SYSTEM: Could not find a response for example name '"
               ++ exampleName ++ "'"))].

Definition not_found_warning (exampleName : string) : log_entry :=
  (Warn, "Could not find a response for example name " ++ exampleName
         ++ ". Responding with first response").

(** A name qualifies when its match count is positive and equals its
    total count. *)
Definition qualifies (total : obj Z) (k : string) (v : Z) : bool :=
  (0 <? v) && eq_count v (obj_get k total).



Definition no_examples {A} (e : option (obj A)) : Prop :=
  e = None \/ e = Some [].

(** Whether the magnitude of a finite number is below [10^b]. *)
Definition magnitude_below (b : Z) (n : jsnum) : bool :=
  match n with
  | Dec m e =>
      if 0 <=? e then Z.abs m * 10 ^ e <? 10 ^ b
      else Z.abs m <? 10 ^ (b - e)
  | _ => false
  end.

Definition is_finite (n : jsnum) : bool :=
  match n with Dec _ _ => true | _ => false end.


Fixpoint all_digits (s : string) : bool :=
  match s with
  | EmptyString => true
  | String c r => is_digit c && all_digits r
  end.

(** [pre] is the decimal numeral of the natural number [z], without
    leading zero. *)
Definition digits_of (pre : string) (z : Z) : Prop :=
  1 <= str_len pre
  /\ z < 10 ^ str_len pre
  /\ (0 < z -> 10 ^ (str_len pre - 1) <= z)
  /\ all_digits pre = true
  /\ forall a rest,
       digits_from 10 a (pre ++ rest)
       = digits_from 10 (a * 10 ^ str_len pre + z) rest.

(** The response after [RTag] has been assigned on its headers, when it
    has headers. *)
Definition tagged (exampleName : string) (r : Response) : Response :=
  match headers r with
  | Some h =>
      {| headers := Some (obj_set "RTag" (RTag exampleName) h);
         content := content r |}
  | None => r
  end.

(** The counter that a tally holds for a name, and the tally entry of a
    counter: no entry for zero. *)
Definition of_count (z : Z) : option Z := if z =? 0 then None else Some z.

(** [t] holds the counters [c] under the names that it does not
    inherit. *)
Definition counts (t : obj Z) (c : string -> Z) : Prop :=
  forall nm, inherited nm = false ->
             0 <= c nm /\ obj_get nm t = of_count (c nm).

Definition occurrences (nm : string) (ks : list string) : Z :=
  Z.of_nat (count_occ string_dec ks nm).

Definition declared_in {A} (nm : string) (e : option (obj A)) : Z :=
  match e with
  | Some exs => occurrences nm (obj_keys exs)
  | None => 0
  end.

Definition sum (l : list Z) : Z := fold_right Z.add 0 l.

(** How many [examples] maps of the operation declare a name: those of the
    parameters and those of the content entries of the request body. *)
Definition declared_count (p : Path) (nm : string) : Z :=
  sum (map (fun q => declared_in nm (examples q)) (parameters p))
  + match declared_content p with
    | Some c => sum (map (fun e => declared_in nm (d_examples (snd e))) c)
    | None => 0
    end.

(** The header names of a request in lower case; this is an object when
    the names in lower case are distinct ([distinct_lower]). *)
Definition lower_keys (hs : obj jsval) : obj jsval :=
  map (fun '(k, v) => (toLowerCase k, v)) hs.

Definition distinct_lower (hs : obj jsval) : Prop :=
  NoDup (obj_keys (lower_keys hs)).

(** The value that the primary content of a response declares for an
    example name. *)
Definition example_value (exampleName : string) (r : Response)
  : option jsval :=
  match first_entry (content r) with
  | Some (_, d) =>
      match d_examples d with
      | Some exs =>
          match obj_get exampleName exs with
          | Some ex => value ex
          | None => None
          end
      | None => None
      end
  | None => None
  end.

Definition headers_or_empty (r : Response) : obj Descriptor :=
  match headers r with Some h => h | None => [] end.


(** The parameter without its deprecation mark. *)
Definition undeprecated (q : Param) : Param :=
  {| in_ := in_ q; name := name q; required := required q;
     deprecated := false; schema := schema q; examples := examples q |}.

Definition deprecation_warning (q : Param) : log_entry :=
  (Warn, "Using deprecated " ++ in_ q ++ " param " ++ lookup_key q).

Definition is_string (v : jsval) : bool :=
  match v with VStr _ => true | _ => false end.

End Notions.

(** ** Sample collaborators and operations *)

Definition dq : string := String (ascii_of_nat 34) EmptyString.

Definition quoted (s : string) : string := dq ++ s ++ dq.

(** Modelled from the spec: [ResponseGenerator.generate], which is not
    among the sources.  It produces a literal value for a descriptor and
    honours the example-name hint when the descriptor carries named
    examples: the value of the hinted example, else the value of the first
    example, else the schema itself as a stand-in for a generated value. *)
Definition first_example_value (d : Descriptor) (hint : option string)
  : jsval :=
  let hinted :=
    match hint, d_examples d with
    | Some h, Some exs =>
        match obj_get h exs with
        | Some {| value := Some v |} => Some v
        | _ => None
        end
    | _, _ => None
    end in
  match hinted, d_examples d with
  | Some v, _ => v
  | None, Some ((_, {| value := Some v |}) :: _) => v
  | None, _ => match d_schema d with Some s => s | None => VNull end
  end.

(** A stand-in for [util.inspect]: a string between single quotes, any
    other value as [String] prints it. *)
Definition quote_strings (v : jsval) : string :=
  match v with
  | VStr s => "'" ++ s ++ "'"
  | _ => to_string v
  end.

(** What [util.inspect] prints for the member inherited under a name:
    the function, which [constructor] names [Object], or the prototype. *)
Definition function_text (k : string) : string :=
  if String.eqb k "__proto__" then "[Object: null prototype] {}"
  else "[Function: "
       ++ (if String.eqb k "constructor" then "Object" else k) ++ "]".

Fixpoint split_on (c : ascii) (s : string) : list string :=
  match s with
  | EmptyString => [EmptyString]
  | String d r =>
      if Ascii.eqb c d then EmptyString :: split_on c r
      else match split_on c r with
           | x :: l => String d x :: l
           | [] => [String d EmptyString]
           end
  end.

Fixpoint bind_segments (ts us : list string) (acc : obj jsval)
  : option (obj jsval) :=
  match ts, us with
  | [], [] => Some acc
  | t :: ts', u :: us' =>
      match t with
      | String ":" nm =>
          if str_empty u then None
          else bind_segments ts' us' (obj_set nm (VStr u) acc)
      | _ => if String.eqb t u then bind_segments ts' us' acc else None
      end
  | _, _ => None
  end.

(** Modelled from the spec: the URI template binder (the package
    [path-parser]), which maps the names of a template to the segments of
    a concrete path or indicates no match.  Segment by segment; [:name]
    takes one segment that is not empty. *)
Definition bind_path (tpl url : string) : option (obj jsval) :=
  bind_segments (split_on "/" tpl) (split_on "/" url) [].

(** The collaborators of the samples; the schema validator accepts every
    body. *)
#[local] Instance sample : Collaborators := {|
  FIRST_RESPONSE := "FIRST_RESPONSE";
  inspect := quote_strings;
  inspect_member := function_text;
  path_test := bind_path;
  generate := first_example_value;
  schema_validate := fun _ _ => Ok []
|}.

Definition ex_num (z : Z) : Example := {| value := Some (VNum (Dec z 0)) |}.

(** One query parameter [id] with the examples [exA] (value 1) and [exB]
    (value 2), and one response. *)
Definition id_param : Param :=
  {| in_ := "query"; name := "id"; required := false; deprecated := false;
     schema := None;
     examples := Some [("exA", ex_num 1); ("exB", ex_num 2)] |}.

Definition plain_response : Response :=
  {| headers := None; content := None |}.

Definition id_operation : Path :=
  {| uri := "/items"; httpMethod := "get"; parameters := [id_param];
     requestBody := None; responses := [("200", plain_response)];
     security := None |}.

Definition query_id (text : string) : string :=
  "{" ++ quoted "id" ++ ":" ++ text ++ "}".

(** A required header parameter declared as [X-Token]. *)
Definition token_param : Param :=
  {| in_ := "header"; name := "X-Token"; required := true;
     deprecated := false; schema := None; examples := None |}.

Definition request_with_headers (hs : obj jsval) : Request :=
  {| req_headers := hs; req_query := []; req_path := []; req_cookies := [];
     req_body := None |}.

(** One response [200] that declares a header and, in its JSON content,
    the example [ex1]. *)
Definition rate_header : Descriptor :=
  {| d_schema := Some (VObj [("type", VStr "integer")]); d_examples := None |}.

Definition pet : jsval := VObj [("name", VStr "Rex")].

Definition pet_content : obj Descriptor :=
  [("application/json",
    {| d_schema := None;
       d_examples := Some [("ex1", {| value := Some pet |})] |})].

Definition pet_response : Response :=
  {| headers := Some [("X-Rate-Limit", rate_header)];
     content := Some pet_content |}.

Definition pet_operation : Path :=
  {| uri := "/pets"; httpMethod := "get"; parameters := [];
     requestBody := None; responses := [("200", pet_response)];
     security := None |}.

(** An operation without parameters, request body or examples. *)
Definition plain_operation : Path :=
  {| uri := "/ping"; httpMethod := "get"; parameters := [];
     requestBody := None; responses := [("200", plain_response)];
     security := None |}.

(** The example [both] is declared on the query parameter [q] and on the
    request body. *)
Definition q_param : Param :=
  {| in_ := "query"; name := "q"; required := false; deprecated := false;
     schema := None;
     examples := Some [("both", {| value := Some (VStr "a") |})] |}.

Definition both_body : RequestBody :=
  {| rb_required := false;
     rb_content :=
       Some [("application/json",
              {| d_schema := None;
                 d_examples :=
                   Some [("both",
                          {| value := Some (VObj [("x", VNum (Dec 1 0))]) |})]
              |})] |}.

Definition both_operation : Path :=
  {| uri := "/search"; httpMethod := "post"; parameters := [q_param];
     requestBody := Some both_body; responses := [("200", plain_response)];
     security := None |}.

Definition query_q : string := "{" ++ quoted "q" ++ ":" ++ quoted "a" ++ "}".

Definition body_x (text : string) : jsval :=
  VStr ("{" ++ quoted "x" ++ ":" ++ text ++ "}").

(** One path parameter [name] with the string examples [exA] and [exB]. *)
Definition name_param : Param :=
  {| in_ := "path"; name := "name"; required := true; deprecated := false;
     schema := None;
     examples := Some [("exA", {| value := Some (VStr "ann") |});
                       ("exB", {| value := Some (VStr "bob") |})] |}.

Definition name_operation : Path :=
  {| uri := "/users/{name}"; httpMethod := "get"; parameters := [name_param];
     requestBody := None; responses := [("200", plain_response)];
     security := None |}.

(** A required body, a required header, a query parameter with an
    enumeration and an optional cookie. *)
Definition n_param : Param :=
  {| in_ := "query"; name := "n"; required := true; deprecated := false;
     schema := Some {| type := Some "integer";
                       enum := Some [VStr "1"; VStr "2"] |};
     examples := None |}.

Definition session_param : Param :=
  {| in_ := "cookie"; name := "session"; required := false;
     deprecated := false; schema := None; examples := None |}.

Definition order_operation : Path :=
  {| uri := "/orders"; httpMethod := "post";
     parameters := [token_param; session_param; n_param];
     requestBody := Some {| rb_required := true; rb_content := None |};
     responses := [("200", plain_response)]; security := None |}.

Definition order_request : Request :=
  {| req_headers := []; req_query := [("n", VStr "3")]; req_path := [];
     req_cookies := []; req_body := None |}.

(** An operation whose only response is the [default] one. *)
Definition default_operation : Path :=
  {| uri := "/any"; httpMethod := "get"; parameters := [];
     requestBody := None; responses := [("default", plain_response)];
     security := None |}.

(** A request body is declared with a schema and without examples. *)
Definition schema_only_body : RequestBody :=
  {| rb_required := false;
     rb_content :=
       Some [("application/json",
              {| d_schema := Some (VObj [("type", VStr "object")]);
                 d_examples := None |})] |}.

Definition upload_operation : Path :=
  {| uri := "/upload"; httpMethod := "post"; parameters := [];
     requestBody := Some schema_only_body;
     responses := [("201", plain_response)]; security := None |}.

(** A response whose example [zero] has the value 0. *)
Definition zero_response : Response :=
  {| headers := None;
     content := Some [("application/json",
                       {| d_schema := None;
                          d_examples := Some [("zero", ex_num 0)] |})] |}.

Definition zero_operation : Path :=
  {| uri := "/count"; httpMethod := "get"; parameters := [];
     requestBody := None; responses := [("200", zero_response)];
     security := None |}.

(** A query parameter whose enumeration holds numbers, a deprecated one,
    one whose schema has an enumeration and no type, and one declared in a
    place that the class does not know. *)
Definition size_param : Param :=
  {| in_ := "query"; name := "size"; required := false; deprecated := false;
     schema := Some {| type := Some "integer";
                       enum := Some [VNum (Dec 1 0); VNum (Dec 2 0)] |};
     examples := None |}.

Definition old_param : Param :=
  {| in_ := "query"; name := "old"; required := false; deprecated := true;
     schema := Some {| type := Some "string"; enum := None |};
     examples := None |}.

Definition loose_param : Param :=
  {| in_ := "query"; name := "mode"; required := false; deprecated := false;
     schema := Some {| type := None; enum := Some [VStr "a"; VStr "b"] |};
     examples := None |}.

Definition form_param : Param :=
  {| in_ := "formData"; name := "file"; required := false;
     deprecated := false; schema := None; examples := None |}.

Definition form_operation : Path :=
  {| uri := "/forms"; httpMethod := "post"; parameters := [form_param];
     requestBody := None; responses := [("200", plain_response)];
     security := None |}.

Definition request_with_query (q : obj jsval) : Request :=
  {| req_headers := []; req_query := q; req_path := []; req_cookies := [];
     req_body := None |}.

(** The example [both] is declared on the header [X-Mode] and on the
    query parameter [q], the example [solo] on the query parameter only. *)
Definition ex_str (s : string) : Example := {| value := Some (VStr s) |}.

Definition mode_param : Param :=
  {| in_ := "header"; name := "X-Mode"; required := false;
     deprecated := false; schema := None;
     examples := Some [("both", ex_str "a")] |}.

Definition pick_param : Param :=
  {| in_ := "query"; name := "q"; required := false; deprecated := false;
     schema := None;
     examples := Some [("solo", ex_str "a"); ("both", ex_str "a")] |}.

Definition mode_operation : Path :=
  {| uri := "/modes"; httpMethod := "get";
     parameters := [mode_param; pick_param];
     requestBody := None; responses := [("200", plain_response)];
     security := None |}.


(** An optional query parameter whose name is the name of a member that
    every object inherits. *)
Definition member_param : Param :=
  {| in_ := "query"; name := "toString"; required := false;
     deprecated := false;
     schema := Some {| type := Some "string"; enum := None |};
     examples := None |}.

Definition member_operation : Path :=
  {| uri := "/members"; httpMethod := "get"; parameters := [member_param];
     requestBody := None; responses := [("200", plain_response)];
     security := None |}.

(** ** The request handler (lib/mocker/express/request-handler.js) *)

(** [JSON.stringify] of a string: the quote, the backslash and the control
    characters are escaped. *)
Definition hex_digit (d : Z) : ascii :=
  if d <? 10 then digit_char d else ascii_of_nat (Z.to_nat (87 + d)).

Fixpoint json_quote_chars (s : string) : string :=
  match s with
  | EmptyString => EmptyString
  | String c r =>
      let n := char_code c in
      let esc (x : string) := String "\" (x ++ json_quote_chars r) in
      if n =? 34 then String "\" (String c (json_quote_chars r))
      else if n =? 92 then esc "\"
      else if n =? 8 then esc "b"
      else if n =? 12 then esc "f"
      else if n =? 10 then esc "n"
      else if n =? 13 then esc "r"
      else if n =? 9 then esc "t"
      else if n <? 32 then
        esc ("u00" ++ String (hex_digit (n / 16))
                        (String (hex_digit (n mod 16)) EmptyString))
      else String c (json_quote_chars r)
  end.

Definition json_quote (s : string) : string :=
  dq ++ json_quote_chars s ++ dq.

(** [JSON.stringify(v)] for a value that is not [undefined]; a number that
    is not finite is written [null]. *)
Fixpoint JSON_stringify (v : jsval) : string :=
  match v with
  | VNull => "null"
  | VBool b => if b then "true" else "false"
  | VNum (Dec m e) => num_to_string (Dec m e)
  | VNum _ => "null"
  | VStr s => json_quote s
  | VArr l => "[" ++ join "," (map JSON_stringify l) ++ "]"
  | VObj l =>
      "{" ++ join "," (map (fun '(k, x) =>
                              json_quote k ++ ":" ++ JSON_stringify x) l)
      ++ "}"
  end.

(** One entry of [components.securitySchemes]. *)
Record SecurityScheme : Type := {
  sc_type : option string;
  sc_in : option string;
  sc_name : option string;
  sc_scheme : option string;
  x_value : option jsval
}.

(** The argument [securityConfig] of [handleRequest]. *)
Record SecurityConfig : Type := {
  securitySchemes : option (obj SecurityScheme);
  globalSecurity : option jsval
}.

(** The request [req]: the facets that validation reads and the path of
    the URL. *)
Record HttpRequest : Type := {
  facets : Request;
  url_path : string
}.

(** The arguments that [responseHandler] is called with, after [req] and
    [res]. *)
Record Sent : Type := {
  sent_body : jsval;
  sent_status : jsval;
  sent_headers : nullable (obj jsval);
  sent_mime : option string
}.

(** What [parsePreferHeader] reads in the header [Prefer]. *)
Record Preference : Type := {
  example : option string;
  statuscode : option string
}.

(** What the handler takes from packages that are not modelled:
    [parsePreferHeader] ([None] is a falsy result) and [colors.yellow]. *)
Class Transport : Type := {
  parsePreferHeader : string -> option Preference;
  yellow : string -> string
}.

Definition not_a_function (what : string) : exn :=
  TypeError (what ++ " is not a function").

Definition cannot_read (what : string) : exn :=
  TypeError ("Cannot read properties of undefined (reading '" ++ what ++ "')").

(** [Object.keys(v)] *)
Definition object_keys (v : jsval) : res (list string) :=
  es <- entries (Some v) ;; Ok (map fst es).

(** [x.toLowerCase()] for a field [x] that may be undefined. *)
Definition lower_field (x : option string) : res string :=
  match x with
  | Some s => Ok (toLowerCase s)
  | None => Throw (cannot_read "toLowerCase")
  end.

(** [path.security || globalSecurity || []] *)
Definition pathSecurity (p : Path) (cfg : SecurityConfig) : jsval :=
  if truthy_opt (security p) then
    match security p with Some v => v | None => VArr [] end
  else if truthy_opt (globalSecurity cfg) then
    match globalSecurity cfg with Some v => v | None => VArr [] end
  else VArr [].

(** [pathSecurity.filter(value => Object.keys(value).length !== 0)
      .flatMap(x => Object.keys(x))] *)
Fixpoint requirement_names (l : list jsval) : res (list string) :=
  match l with
  | [] => Ok []
  | x :: r =>
      ks <- object_keys x ;;
      rest <- requirement_names r ;;
      Ok (ks ++ rest)%list
  end.

Definition validSecurities (security_value : jsval) : res (list string) :=
  match security_value with
  | VArr l => requirement_names l
  | _ => Throw (not_a_function "pathSecurity.filter")
  end.

(** [String(m)] for the member [m] inherited under a name: the source
    text of a built-in function, which [constructor] names [Object], or the
    text of the prototype. *)
Definition member_text (k : string) : string :=
  if String.eqb k "__proto__" then "[object Object]"
  else "function "
       ++ (if String.eqb k "constructor" then "Object" else k)
       ++ "() { [native code] }".

(** Truthiness and [String] of what a read finds; [Absent] is [null] or
    [undefined]. *)
Definition found_truthy (m : member jsval) : bool :=
  match m with
  | Own c => truthy c
  | Inherited _ => true
  | Absent => false
  end.

Definition found_text (m : member jsval) : string :=
  match m with
  | Own c => to_string c
  | Inherited k => member_text k
  | Absent => "null"
  end.

(** The value that an [apiKey] scheme is checked on: what the facet of
    the request, a plain object, has or inherits under the name of the
    scheme in lower case. *)
Definition securityCheck (s : SecurityScheme) (r : Request)
  : res (member jsval) :=
  let lookup (facet : obj jsval) :=
    k <- lower_field (sc_name s) ;; Ok (read k facet) in
  match sc_in s with
  | Some place =>
      if String.eqb place "header" then lookup (req_headers r)
      else if String.eqb place "query" then lookup (req_query r)
      else if String.eqb place "cookie" then lookup (req_cookies r)
      else Ok Absent
  | None => Ok Absent
  end.

Definition is_apiKey (s : SecurityScheme) : bool :=
  match sc_type s with
  | Some t => String.eqb t "apiKey"
  | None => false
  end.

(** Whether one scheme refuses the request (the cases that assign
    [isValidRequest = false]). *)
Definition scheme_refuses (s : SecurityScheme) (r : Request) : res bool :=
  if is_apiKey s then
    check <- securityCheck s r ;;
    Ok (negb (found_truthy check)
        || (truthy_opt (x_value s)
            && negb (String.eqb
                       (found_text check)
                       (match x_value s with Some x => to_string x
                                           | None => "undefined" end))))
  else
    match obj_get "authorization" (req_headers r) with
    | None => Ok true
    | Some authorization =>
        if truthy authorization then
          match authorization with
          | VStr text =>
              let parts := split_on " " text in
              let scheme := match parts with x :: _ => x | [] => EmptyString end in
              let token := match parts with _ :: t :: _ => Some (VStr t)
                                          | _ => None end in
              declared <- lower_field (sc_scheme s) ;;
              Ok (negb (String.eqb (toLowerCase scheme) declared)
                  || (truthy_opt (x_value s)
                      && negb (match x_value s, token with
                               | Some x, Some t => strict_equal x t
                               | _, _ => false
                               end)))
          | _ => Throw (not_a_function "authorization.split")
          end
        else Ok true
    end.

(** [securitySchemes[securityKey]]: the scheme declared under the name,
    or the member that the map inherits under it, which is truthy and has
    none of the fields that the handler reads. *)
Definition member_scheme : SecurityScheme :=
  {| sc_type := None; sc_in := None; sc_name := None; sc_scheme := None;
     x_value := None |}.

Definition lookup_scheme (securityKey : string)
  (schemes : obj SecurityScheme) : option SecurityScheme :=
  match read securityKey schemes with
  | Own s => Some s
  | Inherited _ => Some member_scheme
  | Absent => None
  end.

(** The body of the loop over [validSecurities]: the state is
    [isValidRequest]. *)
Definition check_scheme (schemes : obj SecurityScheme) (r : Request)
  (securityKey : string) (isValidRequest : bool) : res bool :=
  match lookup_scheme securityKey schemes with
  | Some s =>
      refused <- scheme_refuses s r ;;
      Ok (if refused then false else isValidRequest)
  | None => Ok isValidRequest
  end.

Definition check_schemes (schemes : obj SecurityScheme) (r : Request)
  (names : list string) : res bool :=
  for_each names (check_scheme schemes r) true.

(** The security block of [handleRequest]: [Ok false] is the answer 401. *)
Definition authorized (p : Path) (cfg : SecurityConfig) (r : Request)
  : res bool :=
  match securitySchemes cfg with
  | Some schemes =>
      if (0 <? List.length schemes)%nat then
        names <- validSecurities (pathSecurity p cfg) ;;
        if (0 <? List.length names)%nat then check_schemes schemes r names
        else Ok true
      else Ok true
  | None => Ok true
  end.

(** [req.header(name)] for a name in lower case that is not [referer]. *)
Definition req_header (r : Request) (nm : string) : option jsval :=
  obj_get nm (req_headers r).

(** A header value as text; the values of [req.headers] are strings. *)
Definition header_text (v : option jsval) : string :=
  match v with
  | Some x => if truthy x then to_string x else EmptyString
  | None => EmptyString
  end.

Section Handler.
Context {C : Collaborators} {T : Transport}.

(** [checkContentType(req)] *)
Definition checkContentType (r : Request) : list log_entry :=
  if truthy_opt (req_header r "content-type") then []
  else [(Warn, yellow "*" ++ " Missing content-type header")].

(** The function [getResponse] of the handler, which [micro-memoize]
    wraps: the cache compares the argument [req.headers] by identity and
    every request has its own, so every call computes. *)
Definition getResponseMemo (p : Path) (url : string) (query : option string)
  (preferHeader : string) (body : option jsval) (hs : option (obj jsval))
  : res (Resolved * Path * list log_entry) :=
  let pref := match parsePreferHeader preferHeader with
              | Some x => x
              | None => {| example := None; statuscode := None |}
              end in
  requestExampleName <- findPreferredExampleByRequest p url query body hs ;;
  let note :=
    if truthy_str (statuscode pref) then
      "Searching requested response with status code "
      ++ match statuscode pref with Some c => c | None => EmptyString end
    else if truthy_str (example pref) then
      "Searching requested response using example name "
      ++ match example pref with Some n => n | None => EmptyString end
    else "Searching response with request example" in
  let '(result, p', w) :=
    getResponse p (statuscode pref)
      (if truthy_str (example pref) then example pref
       else requestExampleName) in
  x <- result ;;
  Ok (x, p', ((Debug, note) :: w)%list).

Definition unauthorized : Sent :=
  {| sent_body := VObj [("errors", VStr "Unauthorized")];
     sent_status := VNum (Dec 401 0);
     sent_headers := Undefined; sent_mime := None |}.

Definition rejected (failedValidations : list string) : Sent :=
  {| sent_body := VObj [("errors", VArr (map VStr failedValidations))];
     sent_status := VNum (Dec 400 0);
     sent_headers := Undefined; sent_mime := None |}.

(** [handleRequest(path, responseHandler, securityConfig)(req, res)]: what
    [responseHandler] is called with, the operation after the call and the
    log. *)
Definition handleRequest (p : Path) (cfg : SecurityConfig) (req : HttpRequest)
  : res (Sent * Path * list log_entry) :=
  let r := facets req in
  let w0 := checkContentType r in
  ok <- authorized p cfg r ;;
  if negb ok then Ok (unauthorized, p, w0)
  else
    let '(failedValidations, w1) := validateRequestParameters p r in
    if (0 <? List.length failedValidations)%nat
    then Ok (rejected failedValidations, p, (w0 ++ w1)%list)
    else
      let preferHeader := header_text (req_header r "prefer") in
      answer <- getResponseMemo p (url_path req)
                  (Some (JSON_stringify (VObj (req_query r))))
                  preferHeader
                  (option_map (fun b => VStr (JSON_stringify b)) (req_body r))
                  (Some (req_headers r)) ;;
      let '(x, p', w2) := answer in
      Ok ({| sent_body := body x; sent_status := statusCode x;
             sent_headers := r_headers x;
             sent_mime := responseMimeType x |},
          p', (w0 ++ w1 ++ w2)%list).

End Handler.

(** The transport of the samples: a preference header of the form
    [example=NAME] or [statuscode=CODE], and no colours. *)
Definition sample_prefer (text : string) : option Preference :=
  match strip_prefix "example=" text, strip_prefix "statuscode=" text with
  | Some n, _ => Some {| example := Some n; statuscode := None |}
  | None, Some c => Some {| example := None; statuscode := Some c |}
  | None, None => None
  end.

#[local] Instance sample_transport : Transport := {|
  parsePreferHeader := sample_prefer;
  yellow := fun s => s
|}.


(** ** Notions used to state the properties of the handler *)

(** The request facet that an [apiKey] scheme reads. *)
Definition place_facet (place : string) (r : Request) : option (obj jsval) :=
  if String.eqb place "header" then Some (req_headers r)
  else if String.eqb place "query" then Some (req_query r)
  else if String.eqb place "cookie" then Some (req_cookies r)
  else None.

(** The scheme and the token of the text of the header [Authorization]. *)
Definition auth_scheme (text : string) : string :=
  match split_on " " text with x :: _ => x | [] => EmptyString end.

Definition auth_token (text : string) : option string :=
  match split_on " " text with _ :: t :: _ => Some t | _ => None end.

(** A scheme that the security block checks: the configuration declares
    some scheme, a requirement object of the list [os] has the name [k],
    and the read [schemes[k]] finds the scheme. *)
Definition named_scheme (schemes : obj SecurityScheme)
  (os : list (obj jsval)) (s : SecurityScheme) : Prop :=
  schemes <> []
  /\ exists o k, In o os /\ In k (obj_keys o)
                 /\ lookup_scheme k schemes = Some s.

(** Sample schemes: an API key in the query, a bearer token and an OAuth2
    scheme, which has no field [scheme]. *)
Definition key_scheme : SecurityScheme :=
  {| sc_type := Some "apiKey"; sc_in := Some "query";
     sc_name := Some "apiKey"; sc_scheme := None;
     x_value := Some (VStr "secret") |}.

Definition bearer_scheme : SecurityScheme :=
  {| sc_type := Some "http"; sc_in := None; sc_name := None;
     sc_scheme := Some "bearer"; x_value := Some (VStr "t0ken") |}.

Definition oauth_scheme : SecurityScheme :=
  {| sc_type := Some "oauth2"; sc_in := None; sc_name := None;
     sc_scheme := None; x_value := None |}.

Definition sample_schemes : obj SecurityScheme :=
  [("key", key_scheme); ("bearer", bearer_scheme); ("oauth", oauth_scheme)].

Definition require (names : list string) : jsval :=
  VArr (map (fun k => VObj [(k, VArr [])]) names).

Definition sample_config (names : list string) : SecurityConfig :=
  {| securitySchemes := Some sample_schemes;
     globalSecurity := Some (require names) |}.

Definition open_config : SecurityConfig :=
  {| securitySchemes := None; globalSecurity := None |}.

Definition http_request (r : Request) (url : string) : HttpRequest :=
  {| facets := r; url_path := url |}.

Definition public_operation : Path :=
  {| uri := "/ping"; httpMethod := "get"; parameters := [];
     requestBody := None; responses := [("200", plain_response)];
     security := Some (VArr []) |}.

Definition request_with_body (b : jsval) : Request :=
  {| req_headers := [("content-type", VStr "application/json")];
     req_query := []; req_path := []; req_cookies := [];
     req_body := Some b |}.
(** * Properties *)

(** ** Numerals *)

Lemma append_assoc (a b c : string) : (a ++ b) ++ c = a ++ (b ++ c).
Proof. induction a as [|x a IH]; simpl; [reflexivity|now rewrite IH]. Qed.

Lemma append_empty_r (a : string) : a ++ EmptyString = a.
Proof. induction a as [|x a IH]; simpl; [reflexivity|now rewrite IH]. Qed.

Lemma str_len_append (a b : string) : str_len (a ++ b) = str_len a + str_len b.
Proof.
  unfold str_len. induction a as [|x a IH]; simpl String.length.
  - reflexivity.
  - rewrite !Nat2Z.inj_succ. simpl append. lia.
Qed.

Lemma str_len_nonneg (a : string) : 0 <= str_len a.
Proof. unfold str_len. lia. Qed.

Lemma char_code_digit d : 0 <= d < 10 -> char_code (digit_char d) = 48 + d.
Proof.
  intros H. unfold char_code, digit_char.
  rewrite nat_ascii_embedding by lia. lia.
Qed.

Lemma digit_char_is_digit d : 0 <= d < 10 -> is_digit (digit_char d) = true.
Proof.
  intros H. unfold is_digit. rewrite (char_code_digit d H).
  apply andb_true_iff. split; apply Z.leb_le; lia.
Qed.

Lemma digit_val_digit d : 0 <= d < 10 -> digit_val 10 (digit_char d) = Some d.
Proof.
  intros H. unfold digit_val. rewrite (char_code_digit d H).
  replace ((48 <=? 48 + d) && (48 + d <=? 57)) with true
    by (symmetry; apply andb_true_iff; split; apply Z.leb_le; lia).
  replace (48 + d - 48) with d by lia.
  replace (d <? 10) with true by (symmetry; apply Z.ltb_lt; lia).
  reflexivity.
Qed.

Lemma all_digits_app a b :
  all_digits (a ++ b) = all_digits a && all_digits b.
Proof.
  induction a as [|x a IH]; simpl; [reflexivity|].
  now rewrite IH, andb_assoc.
Qed.

Lemma digits_acc_spec f :
  forall z acc, 0 <= z < 10 ^ Z.of_nat f -> (0 < f)%nat ->
  exists pre, digits_acc f z acc = pre ++ acc /\ digits_of pre z.
Proof.
  induction f as [|f IH]; intros z acc Hz Hf; [lia|].
  cbn [digits_acc]. destruct (z <? 10) eqn:L.
  - apply Z.ltb_lt in L. rewrite (Z.mod_small z 10) by lia.
    exists (String (digit_char z) EmptyString). split; [reflexivity|].
    unfold digits_of. change (str_len (String (digit_char z) EmptyString))
      with 1.
    split; [lia|]. split; [lia|]. split; [simpl; lia|]. split.
    + simpl. now rewrite digit_char_is_digit by lia.
    + intros a rest. simpl. rewrite digit_val_digit by lia.
      f_equal; lia.
  - apply Z.ltb_ge in L.
    assert (Hf' : (0 < f)%nat).
    { destruct f; [|lia]. simpl in Hz. lia. }
    assert (Hq : 0 <= z / 10 < 10 ^ Z.of_nat f).
    { split; [apply Z.div_pos; lia|].
      apply Z.div_lt_upper_bound; [lia|].
      rewrite Nat2Z.inj_succ, Z.pow_succ_r in Hz by lia. lia. }
    destruct (IH (z / 10) (String (digit_char (z mod 10)) acc) Hq Hf')
      as (pre' & E & K & U & Lo & D & V).
    pose proof (Z.mod_pos_bound z 10 ltac:(lia)) as Hr.
    pose proof (Z.div_mod z 10 ltac:(lia)) as Hdm.
    exists (pre' ++ String (digit_char (z mod 10)) EmptyString).
    split; [rewrite E, append_assoc; reflexivity|].
    unfold digits_of. rewrite str_len_append.
    change (str_len (String (digit_char (z mod 10)) EmptyString)) with 1.
    set (k := str_len pre') in *.
    assert (P1 : 10 ^ (k + 1) = 10 * 10 ^ k)
      by (rewrite Z.pow_add_r by lia; lia).
    assert (P0 : 10 ^ k = 10 * 10 ^ (k - 1)).
    { replace k with (k - 1 + 1) at 1 by lia.
      rewrite Z.pow_add_r by lia. lia. }
    split; [|split; [|split; [|split]]].
    + lia.
    + rewrite P1. lia.
    + intros _. replace (k + 1 - 1) with k by lia.
      assert (0 < z / 10) by (apply Z.div_str_pos; lia).
      specialize (Lo H). lia.
    + rewrite all_digits_app, D. simpl.
      now rewrite digit_char_is_digit by lia.
    + intros a rest. rewrite append_assoc. simpl append. rewrite V.
      cbn [digits_from]. rewrite digit_val_digit by lia.
      f_equal. rewrite P1. lia.
Qed.

Lemma Z_digits_spec z : 0 <= z -> digits_of (Z_digits z) z.
Proof.
  intros Hz. unfold Z_digits.
  destruct (digits_acc_spec (S (Z.to_nat (Z.log2 z))) z EmptyString)
    as (pre & E & H).
  - split; [exact Hz|].
    rewrite Nat2Z.inj_succ, Z2Nat.id by apply Z.log2_nonneg.
    destruct (Z.eq_dec z 0) as [->|Hnz].
    + reflexivity.
    + pose proof (Z.log2_spec z ltac:(lia)) as [_ Hup].
      eapply Z.lt_le_trans; [exact Hup|].
      apply Z.pow_le_mono_l. lia.
  - lia.
  - rewrite E, append_empty_r. exact H.
Qed.

Lemma digits_from_zeros j :
  forall a rest,
    digits_from 10 a (repeat_char "0" j ++ rest)
    = digits_from 10 (a * 10 ^ Z.of_nat j) rest.
Proof.
  induction j as [|j IH]; intros a rest.
  - simpl. f_equal. lia.
  - cbn [repeat_char append digits_from].
    change (digit_val 10 "0") with (Some 0). cbv iota beta.
    rewrite IH. f_equal.
    rewrite Nat2Z.inj_succ, Z.pow_succ_r by lia. lia.
Qed.

Lemma all_digits_zeros j : all_digits (repeat_char "0" j) = true.
Proof. induction j as [|j IH]; simpl; [reflexivity|exact IH]. Qed.

Lemma span_all_digits s :
  all_digits s = true -> span is_digit s = (s, EmptyString).
Proof.
  induction s as [|c s IH]; simpl; [reflexivity|].
  intros H. apply andb_true_iff in H as [Hc Hs].
  now rewrite Hc, (IH Hs).
Qed.

Lemma digit_not_sign c :
  is_digit c = true ->
  Ascii.eqb c "-" = false /\ Ascii.eqb c "+" = false /\ is_space c = false.
Proof.
  unfold is_digit, is_space. intros H.
  apply andb_true_iff in H as [H1 H2].
  apply Z.leb_le in H1. apply Z.leb_le in H2.
  repeat split.
  - apply Ascii.eqb_neq. intros ->. vm_compute in H1. contradiction.
  - apply Ascii.eqb_neq. intros ->. vm_compute in H1. contradiction.
  - apply orb_false_iff. split.
    + apply andb_false_iff. right. apply Z.leb_gt. lia.
    + apply Z.eqb_neq. lia.
Qed.

(** [parseInt] on a numeral with an optional minus sign. *)
Lemma parseInt_numeral (neg : bool) (ds : string) :
  all_digits ds = true -> str_empty ds = false ->
  parseInt_string ((if neg then "-" else EmptyString) ++ ds)
  = Dec (apply_sign neg (dec_val ds)) 0.
Proof.
  intros D N. unfold parseInt_string. destruct neg.
  - cbn [append skip_spaces]. change (is_space "-") with false.
    cbn [sign_split]. change (Ascii.eqb "-" "-") with true.
    cbv iota. now rewrite (span_all_digits ds D), N.
  - cbn [append]. destruct ds as [|c r]; [discriminate|].
    pose proof D as D'. simpl in D'. apply andb_true_iff in D' as [Hc _].
    destruct (digit_not_sign c Hc) as (M & P & S).
    cbn [skip_spaces]. rewrite S. cbn [sign_split]. rewrite M, P.
    now rewrite (span_all_digits _ D).
Qed.

Lemma parseInt_shape t :
  parseInt_string t = NaN \/ exists a, parseInt_string t = Dec a 0.
Proof.
  unfold parseInt_string.
  destruct (sign_split (skip_spaces t)) as [neg u].
  destruct (span is_digit u) as [ds rest].
  destruct (str_empty ds); [now left|right; eauto].
Qed.

Lemma strip_zeros_spec f :
  forall m e, m <> 0 -> Z.abs m < 10 ^ Z.of_nat f ->
  exists s e', strip_zeros f m e = (s, e')
    /\ s <> 0 /\ s mod 10 <> 0 /\ e <= e' /\ m = s * 10 ^ (e' - e).
Proof.
  induction f as [|f IH]; intros m e Hm Hb.
  - simpl in Hb. lia.
  - cbn [strip_zeros].
    replace (m =? 0) with false by (symmetry; apply Z.eqb_neq; exact Hm).
    destruct (m mod 10 =? 0) eqn:Z10.
    + apply Z.eqb_eq in Z10.
      pose proof (Z.div_mod m 10 ltac:(lia)) as Hdm.
      assert (Hq : m / 10 <> 0) by lia.
      assert (Hqb : Z.abs (m / 10) < 10 ^ Z.of_nat f).
      { rewrite Nat2Z.inj_succ, Z.pow_succ_r in Hb by lia. lia. }
      destruct (IH (m / 10) (e + 1) Hq Hqb) as (s & e' & E & S0 & S10 & Le & V).
      exists s, e'. split; [exact E|]. repeat split; try assumption; try lia.
      replace (e' - e) with (Z.succ (e' - (e + 1))) by lia.
      rewrite Z.pow_succ_r by lia. lia.
    + apply Z.eqb_neq in Z10. exists m, e.
      split; [reflexivity|]. repeat split; try assumption; try lia.
      rewrite Z.sub_diag. simpl. lia.
Qed.

Lemma strip_trailing_spec m e :
  m <> 0 ->
  exists s e', strip_trailing m e = (s, e')
    /\ s <> 0 /\ s mod 10 <> 0 /\ e <= e' /\ m = s * 10 ^ (e' - e).
Proof.
  intros Hm. unfold strip_trailing. apply strip_zeros_spec; [exact Hm|].
  destruct (Z_digits_spec (Z.abs m) (Z.abs_nonneg m)) as (_ & U & _).
  exact U.
Qed.

(** A number with a digit after the decimal point is no multiple of the
    unit. *)
Lemma fraction_not_multiple s e e' c :
  s mod 10 <> 0 -> e <= e' -> e' < 0 ->
  c * 10 ^ (- e) <> s * 10 ^ (e' - e).
Proof.
  intros S10 Le Neg E.
  replace (- e) with ((- e' - 1) + 1 + (e' - e)) in E by lia.
  rewrite !Z.pow_add_r in E by lia.
  assert (P : 0 < 10 ^ (e' - e)) by (apply Z.pow_pos_nonneg; lia).
  assert (E' : c * (10 ^ (- e' - 1) * 10 ^ 1) = s) by nia.
  apply S10. rewrite <- E'.
  replace (c * (10 ^ (- e' - 1) * 10 ^ 1))
    with (c * 10 ^ (- e' - 1) * 10) by (simpl; lia).
  apply Z.mod_mul. lia.
Qed.

(** The integer test of [isValidType] below [10^21]: [parseInt] gives the
    number back exactly when the number is an integer. *)
Lemma parseInt_detects_integers m e :
  magnitude_below 21 (Dec m e) = true ->
  num_eqb (parseInt (Dec m e)) (Dec m e) = is_integer (Dec m e).
Proof.
  intros B. destruct (Z.eq_dec m 0) as [->|Hm].
  - unfold parseInt, num_to_string, strip_trailing.
    change (strip_zeros (String.length (Z_digits (Z.abs 0))) 0 e)
      with (0, 0).
    cbv iota beta. change (0 =? 0) with true. cbv iota.
    change (parseInt_string "0") with (Dec 0 0).
    unfold num_eqb, is_integer. rewrite !Z.mul_0_l.
    destruct (0 <=? e); [reflexivity|]. now rewrite Zmod_0_l.
  - destruct (strip_trailing_spec m e Hm) as (s & e' & E & S0 & S10 & Le & V).
    unfold parseInt, num_to_string. rewrite E.
    replace (s =? 0) with false by (symmetry; apply Z.eqb_neq; exact S0).
    destruct (Z_digits_spec (Z.abs s) (Z.abs_nonneg s))
      as (K & U & Lo & D & P).
    set (ds := Z_digits (Z.abs s)) in *. set (k := str_len ds) in *.
    destruct (Z_lt_le_dec e' 0) as [Neg|Pos].
    + (* a fractional digit remains *)
      assert (I : is_integer (Dec m e) = false).
      { unfold is_integer.
        replace (0 <=? e) with false by (symmetry; apply Z.leb_gt; lia).
        apply Z.eqb_neq. intros M.
        apply Z.mod_divide in M; [|apply Z.pow_nonzero; lia].
        destruct M as [c Hc].
        apply (fraction_not_multiple s e e' c S10 Le Neg). congruence. }
      rewrite I.
      destruct (parseInt_shape
                  ((if s <? 0 then "-" else EmptyString)
                   ++ positive_to_string ds k (k + e')))
        as [-> | [a ->]]; [reflexivity|].
      unfold num_eqb. rewrite Z.min_r by lia.
      apply Z.eqb_neq. rewrite Z.sub_diag, Z.sub_0_l.
      change (10 ^ 0) with 1. rewrite Z.mul_1_r, V.
      apply fraction_not_multiple; assumption.
    + (* an integer *)
      assert (Val : Z.abs s * 10 ^ e' < 10 ^ 21).
      { unfold magnitude_below in B. destruct (0 <=? e) eqn:Se.
        - apply Z.leb_le in Se. apply Z.ltb_lt in B.
          rewrite V, Z.abs_mul, (Z.abs_eq (10 ^ (e' - e))) in B
            by (apply Z.pow_nonneg; lia).
          rewrite <- Z.mul_assoc, <- Z.pow_add_r in B by lia.
          now replace (e' - e + e) with e' in B by lia.
        - apply Z.leb_gt in Se. apply Z.ltb_lt in B.
          rewrite V, Z.abs_mul, (Z.abs_eq (10 ^ (e' - e))) in B
            by (apply Z.pow_nonneg; lia).
          replace (e' - e) with (e' + - e) in B by lia.
          replace (21 - e) with (21 + - e) in B by lia.
          rewrite !Z.pow_add_r in B by lia.
          assert (0 < 10 ^ (- e)) by (apply Z.pow_pos_nonneg; lia).
          nia. }
      assert (N21 : k + e' <= 21).
      { assert (L1 : 10 ^ (k - 1) <= Z.abs s) by (apply Lo; lia).
        assert (L2 : 10 ^ (k - 1 + e') < 10 ^ 21).
        { rewrite Z.pow_add_r by lia.
          assert (0 < 10 ^ e') by (apply Z.pow_pos_nonneg; lia). nia. }
        apply Z.pow_lt_mono_r_iff in L2; lia. }
      unfold positive_to_string.
      replace ((k <=? k + e') && (k + e' <=? 21)) with true
        by (symmetry; apply andb_true_iff; split; apply Z.leb_le; lia).
      replace (k + e' - k) with e' by lia.
      assert (Dz : all_digits (ds ++ repeat_char "0" (Z.to_nat e')) = true)
        by now rewrite all_digits_app, D, all_digits_zeros.
      assert (Nz : str_empty (ds ++ repeat_char "0" (Z.to_nat e')) = false).
      { destruct ds; [|reflexivity]. unfold k, str_len in K. simpl in K. lia. }
      rewrite (parseInt_numeral (s <? 0) _ Dz Nz).
      assert (Vd : dec_val (ds ++ repeat_char "0" (Z.to_nat e'))
                   = Z.abs s * 10 ^ e').
      { unfold dec_val. rewrite P.
        rewrite <- (append_empty_r (repeat_char "0" (Z.to_nat e'))).
        rewrite digits_from_zeros. cbn [digits_from].
        rewrite Z2Nat.id by lia. now rewrite Z.mul_0_l. }
      rewrite Vd.
      assert (Sg : apply_sign (s <? 0) (Z.abs s * 10 ^ e') = s * 10 ^ e').
      { unfold apply_sign. destruct (s <? 0) eqn:Ss.
        - apply Z.ltb_lt in Ss. rewrite Z.abs_neq by lia. lia.
        - apply Z.ltb_ge in Ss. rewrite Z.abs_eq by lia. lia. }
      rewrite Sg. unfold num_eqb, is_integer.
      destruct (0 <=? e) eqn:Se.
      * apply Z.leb_le in Se. rewrite Z.min_l by lia.
        apply Z.eqb_eq. rewrite !Z.sub_0_r. change (10 ^ 0) with 1.
        rewrite Z.mul_1_r, V, <- Z.mul_assoc, <- Z.pow_add_r by lia.
        now replace (e' - e + e) with e' by lia.
      * apply Z.leb_gt in Se. rewrite Z.min_r by lia.
        rewrite Z.sub_diag, Z.sub_0_l. change (10 ^ 0) with 1.
        rewrite Z.mul_1_r.
        assert (M : m = s * 10 ^ e' * 10 ^ (- e)).
        { rewrite V. replace (e' - e) with (e' + - e) by lia.
          rewrite Z.pow_add_r by lia. lia. }
        rewrite <- M, Z.eqb_refl. symmetry. apply Z.eqb_eq.
        rewrite M. apply Z.mod_mul. apply Z.pow_nonzero; lia.
Qed.

Lemma span_one_digit c x r :
  is_digit c = true -> is_digit x = false ->
  span is_digit (String c (String x r)) = (String c EmptyString, String x r).
Proof. intros Hc Hx. cbn [span]. now rewrite Hc, Hx. Qed.

Lemma dec_val_one_digit c :
  is_digit c = true -> 0 <= dec_val (String c EmptyString) <= 9.
Proof.
  intros H. unfold dec_val, digits_from, digit_val.
  unfold is_digit in H. rewrite H.
  apply andb_true_iff in H as [H1 H2].
  apply Z.leb_le in H1. apply Z.leb_le in H2.
  replace (char_code c - 48 <? 10) with true
    by (symmetry; apply Z.ltb_lt; lia).
  lia.
Qed.

(** [parseInt] on a text that has one digit before a character that is not
    a digit: at most 9 in magnitude. *)
Lemma parseInt_one_digit (neg : bool) c x r :
  is_digit c = true -> is_digit x = false ->
  exists a, parseInt_string
              ((if neg then "-" else EmptyString) ++ String c (String x r))
            = Dec a 0 /\ Z.abs a <= 9.
Proof.
  intros Hc Hx. destruct (digit_not_sign c Hc) as (M & P & S).
  pose proof (dec_val_one_digit c Hc) as V.
  unfold parseInt_string. destruct neg.
  - cbn [append skip_spaces]. change (is_space "-") with false.
    cbn [sign_split]. change (Ascii.eqb "-" "-") with true. cbv iota.
    rewrite (span_one_digit c x r Hc Hx). cbn [str_empty].
    eexists. split; [reflexivity|]. unfold apply_sign. lia.
  - cbn [append skip_spaces]. rewrite S. cbn [sign_split]. rewrite M, P.
    rewrite (span_one_digit c x r Hc Hx). cbn [str_empty].
    eexists. split; [reflexivity|]. unfold apply_sign. lia.
Qed.

Lemma exponent_text_head x :
  exists r, exponent_text x = String "e" r.
Proof. unfold exponent_text. destruct (x <? 0); eexists; reflexivity. Qed.

(** From [10^21] on, [parseInt] reads at most the first digit of the
    exponent notation and never gives the number back. *)
Lemma parseInt_misses_large m e :
  magnitude_below 21 (Dec m e) = false ->
  num_eqb (parseInt (Dec m e)) (Dec m e) = false.
Proof.
  intros B.
  assert (Hm : m <> 0).
  { intros ->. unfold magnitude_below in B. simpl Z.abs in B.
    destruct (0 <=? e) eqn:Se.
    - rewrite Z.mul_0_l in B. apply Z.ltb_ge in B.
      assert (0 < 10 ^ 21) by reflexivity. lia.
    - apply Z.leb_gt in Se. apply Z.ltb_ge in B.
      assert (0 < 10 ^ (21 - e)) by (apply Z.pow_pos_nonneg; lia). lia. }
  assert (Big : forall a, Z.abs a <= 9 -> num_eqb (Dec a 0) (Dec m e) = false).
  { intros a Ha. unfold num_eqb, magnitude_below in *.
    destruct (0 <=? e) eqn:Se.
    - apply Z.leb_le in Se. apply Z.ltb_ge in B. rewrite Z.min_l by lia.
      rewrite !Z.sub_0_r. change (10 ^ 0) with 1. rewrite Z.mul_1_r.
      apply Z.eqb_neq. intros ->.
      rewrite Z.abs_mul, (Z.abs_eq (10 ^ e)) in Ha
        by (apply Z.pow_nonneg; lia).
      assert (10 <= 10 ^ 21) by (vm_compute; discriminate). lia.
    - apply Z.leb_gt in Se. apply Z.ltb_ge in B. rewrite Z.min_r by lia.
      rewrite Z.sub_diag, Z.sub_0_l. change (10 ^ 0) with 1.
      rewrite Z.mul_1_r. apply Z.eqb_neq. intros <-.
      replace (21 - e) with (21 + - e) in B by lia.
      rewrite Z.pow_add_r, Z.abs_mul in B by lia.
      assert (P : 0 < 10 ^ (- e)) by (apply Z.pow_pos_nonneg; lia).
      rewrite (Z.abs_eq (10 ^ (- e))) in B by lia.
      assert (10 <= 10 ^ 21) by (vm_compute; discriminate). nia. }
  destruct (strip_trailing_spec m e Hm) as (s & e' & E & S0 & S10 & Le & V).
  unfold parseInt, num_to_string. rewrite E.
  replace (s =? 0) with false by (symmetry; apply Z.eqb_neq; exact S0).
  destruct (Z_digits_spec (Z.abs s) (Z.abs_nonneg s)) as (K & U & Lo & D & P).
  set (ds := Z_digits (Z.abs s)) in *. set (k := str_len ds) in *.
  destruct (Z_lt_le_dec e' 0) as [Neg|Pos].
  - destruct (parseInt_shape
                ((if s <? 0 then "-" else EmptyString)
                 ++ positive_to_string ds k (k + e')))
      as [-> | [a ->]]; [reflexivity|].
    unfold num_eqb. rewrite Z.min_r by lia.
    apply Z.eqb_neq. rewrite Z.sub_diag, Z.sub_0_l.
    change (10 ^ 0) with 1. rewrite Z.mul_1_r, V.
    apply fraction_not_multiple; assumption.
  - assert (Val : 10 ^ 21 <= Z.abs s * 10 ^ e').
    { unfold magnitude_below in B. destruct (0 <=? e) eqn:Se.
      - apply Z.leb_le in Se. apply Z.ltb_ge in B.
        rewrite V, Z.abs_mul, (Z.abs_eq (10 ^ (e' - e))) in B
          by (apply Z.pow_nonneg; lia).
        rewrite <- Z.mul_assoc, <- Z.pow_add_r in B by lia.
        now replace (e' - e + e) with e' in B by lia.
      - apply Z.leb_gt in Se. apply Z.ltb_ge in B.
        rewrite V, Z.abs_mul, (Z.abs_eq (10 ^ (e' - e))) in B
          by (apply Z.pow_nonneg; lia).
        replace (e' - e) with (e' + - e) in B by lia.
        replace (21 - e) with (21 + - e) in B by lia.
        rewrite !Z.pow_add_r in B by lia.
        assert (0 < 10 ^ (- e)) by (apply Z.pow_pos_nonneg; lia).
        nia. }
    assert (N22 : 21 < k + e').
    { assert (L2 : 10 ^ 21 < 10 ^ (k + e')).
      { rewrite Z.pow_add_r by lia.
        assert (0 < 10 ^ e') by (apply Z.pow_pos_nonneg; lia). nia. }
      apply Z.pow_lt_mono_r_iff in L2; lia. }
    unfold positive_to_string.
    replace ((k <=? k + e') && (k + e' <=? 21)) with false
      by (symmetry; apply andb_false_iff; right; apply Z.leb_gt; lia).
    replace ((0 <? k + e') && (k + e' <=? 21)) with false
      by (symmetry; apply andb_false_iff; right; apply Z.leb_gt; lia).
    replace ((-6 <? k + e') && (k + e' <=? 0)) with false
      by (symmetry; apply andb_false_iff; right; apply Z.leb_gt; lia).
    destruct ds as [|c r] eqn:Eds;
      [unfold k, str_len in K; simpl in K; lia|].
    pose proof D as D'. simpl in D'. apply andb_true_iff in D' as [Hc _].
    destruct (exponent_text_head (k + e' - 1)) as [t Ht].
    destruct (k =? 1) eqn:K1.
    + apply Z.eqb_eq in K1. destruct r as [|c' r'].
      * rewrite Ht. cbn [append].
        destruct (parseInt_one_digit (s <? 0) c "e" t Hc eq_refl)
          as (a & -> & Ha).
        now apply Big.
      * unfold k, str_len in K1. simpl String.length in K1.
        rewrite !Nat2Z.inj_succ in K1. lia.
    + cbn [substring append].
      replace (substring 0 0 r) with EmptyString by now destruct r.
      cbn [append].
      match goal with
      | |- context [String c (String "." ?t)] =>
          destruct (parseInt_one_digit (s <? 0) c "." t Hc eq_refl)
            as (a & -> & Ha)
      end.
      now apply Big.
Qed.

(** ** Request validation *)

Section ValidationProperties.
Context {C : Collaborators}.

Lemma isValidType_throw ty v e :
  isValidType ty v = Throw e ->
  exn_message e = "Invalid type declaration " ++ type_text ty.
Proof.
  unfold isValidType. destruct ty as [t|].
  - repeat match goal with
           | |- context [if String.eqb t ?x then _ else _] =>
               destruct (String.eqb t x); [discriminate|]
           end.
    intros [= <-]. reflexivity.
  - intros [= <-]. reflexivity.
Qed.

Lemma type_message_nonempty paramIn nm sch v m :
  validateParameterType paramIn nm sch v = Some m -> str_empty m = false.
Proof.
  unfold validateParameterType.
  destruct (isValidType (type sch) v) as [[|]|e] eqn:E.
  - intros [= <-]. reflexivity.
  - discriminate.
  - intros [= <-]. rewrite (isValidType_throw _ _ _ E). reflexivity.
Qed.

Lemma enum_message_nonempty paramIn nm sch v m :
  validateParameterEnum paramIn nm sch v = Some m -> str_empty m = false.
Proof.
  unfold validateParameterEnum.
  destruct (isValidEnumValue (enum sch) v); intros H; inversion H; reflexivity.
Qed.

Lemma schema_message_nonempty q v m :
  fst (validateParameterSchema q v) = Some m -> str_empty m = false.
Proof.
  unfold validateParameterSchema.
  destruct (schema q) as [sch|]; simpl; [|discriminate].
  destruct (truthy_str (type sch)); simpl; [|discriminate].
  destruct (validateParameterType (in_ q) (name q) sch v) eqn:E.
  - intros H; inversion H; subst. eapply type_message_nonempty; eauto.
  - apply enum_message_nonempty.
Qed.

Lemma isValidType_member_throw ty k e :
  isValidType_member ty k = Throw e ->
  exn_message e = "Invalid type declaration " ++ type_text ty.
Proof.
  unfold isValidType_member. destruct ty as [t|].
  - repeat match goal with
           | |- context [if String.eqb t ?x then _ else _] =>
               destruct (String.eqb t x); [discriminate|]
           end.
    intros [= <-]. reflexivity.
  - intros [= <-]. reflexivity.
Qed.

Lemma schema_member_message_head q k m :
  fst (validateParameterSchema_member q k) = Some m ->
  exists rest, m = String "I" rest.
Proof.
  unfold validateParameterSchema_member.
  destruct (schema q) as [sch|]; simpl; [|discriminate].
  destruct (truthy_str (type sch)); simpl; [|discriminate].
  unfold validateParameterType_member, validateParameterEnum_member.
  destruct (isValidType_member (type sch) k) as [[|]|e] eqn:E.
  - intros [= <-]. eexists. reflexivity.
  - destruct (isValidEnumValue_member (enum sch)); [discriminate|].
    intros [= <-]. eexists. reflexivity.
  - intros [= <-]. rewrite (isValidType_member_throw _ _ _ E).
    eexists. reflexivity.
Qed.

(** The three cases of the read in [_validateParameter]. *)
Lemma inner_own q rp v :
  obj_get (name q) rp = Some v ->
  _validateParameter q rp
  = (fst (validateParameterSchema q v),
     List.app
       (if deprecated q
        then [(Warn, "Using deprecated " ++ in_ q ++ " param " ++ name q)]
        else [])
       (snd (validateParameterSchema q v))).
Proof.
  intros G. unfold _validateParameter, read. rewrite G.
  now destruct (validateParameterSchema q v).
Qed.

Lemma inner_inherited q rp :
  obj_get (name q) rp = None -> inherited (name q) = true ->
  _validateParameter q rp
  = (fst (validateParameterSchema_member q (name q)),
     List.app
       (if deprecated q
        then [(Warn, "Using deprecated " ++ in_ q ++ " param " ++ name q)]
        else [])
       (snd (validateParameterSchema_member q (name q)))).
Proof.
  intros G I. unfold _validateParameter, read. rewrite G, I.
  now destruct (validateParameterSchema_member q (name q)).
Qed.

Lemma inner_absent q rp :
  obj_get (name q) rp = None -> inherited (name q) = false ->
  _validateParameter q rp
  = if required q
    then (Some ("Missing required " ++ in_ q ++ " param " ++ name q), [])
    else (None, []).
Proof.
  intros G I. unfold _validateParameter, read. now rewrite G, I.
Qed.

Lemma inner_message_nonempty q rp m :
  fst (_validateParameter q rp) = Some m -> str_empty m = false.
Proof.
  destruct (obj_get (name q) rp) as [v|] eqn:G.
  - rewrite (inner_own q rp v G). cbn [fst].
    apply schema_message_nonempty.
  - destruct (inherited (name q)) eqn:I.
    + rewrite (inner_inherited q rp G I). cbn [fst]. intros H.
      destruct (schema_member_message_head q _ m H) as [rest ->].
      reflexivity.
    + rewrite (inner_absent q rp G I).
      destruct (required q); simpl; intros H; inversion H; reflexivity.
Qed.

Lemma message_nonempty q r m :
  fst (validateParameter q r) = Some m -> str_empty m = false.
Proof.
  unfold validateParameter.
  repeat match goal with
         | |- context [if String.eqb ?a ?b then _ else _] =>
             destruct (String.eqb a b)
         end;
    try apply inner_message_nonempty.
  simpl. intros H; inversion H; reflexivity.
Qed.

Lemma keep_truthy_failures ps r :
  keep_truthy (map fst (map (fun q => validateParameter q r) ps))
  = flat_map (fun q => failure q r) ps.
Proof.
  induction ps as [|q ps IH]; simpl; [reflexivity|].
  unfold failure at 1.
  destruct (fst (validateParameter q r)) as [m|] eqn:E; simpl.
  - rewrite (message_nonempty q r m E). now rewrite IH.
  - exact IH.
Qed.

Lemma flat_map_nil {A B} (f : A -> list B) l :
  flat_map f l = [] <-> forall x, In x l -> f x = [].
Proof.
  induction l as [|a l IH]; simpl.
  - split; [intros _ x []|reflexivity].
  - split.
    + intros H. apply app_eq_nil in H as [Ha Hl].
      intros x [<-|Hx]; [exact Ha|]. now apply IH.
    + intros H. rewrite (H a (or_introl eq_refl)).
      simpl. apply IH. intros x Hx. apply H. now right.
Qed.

(** The parameter that reaches [_validateParameter] and the facet it is
    looked up in. *)
Lemma validateParameter_facet q r o :
  facet_of q r = Some o ->
  validateParameter q r = _validateParameter (with_name q (lookup_key q)) o.
Proof.
  unfold facet_of, validateParameter, lookup_key.
  destruct (String.eqb (in_ q) "header"); [now intros [= <-]|].
  assert (E : with_name q (name q) = q) by now destruct q.
  rewrite E.
  destruct (String.eqb (in_ q) "query"); [now intros [= <-]|].
  destruct (String.eqb (in_ q) "path"); [now intros [= <-]|].
  destruct (String.eqb (in_ q) "cookie"); [now intros [= <-]|discriminate].
Qed.

Lemma validateParameter_no_facet q r :
  facet_of q r = None ->
  validateParameter q r
  = (Some ("Invalid declaration for " ++ in_ q ++ " param " ++ name q), []).
Proof.
  unfold facet_of, validateParameter.
  destruct (String.eqb (in_ q) "header"); [discriminate|].
  destruct (String.eqb (in_ q) "query"); [discriminate|].
  destruct (String.eqb (in_ q) "path"); [discriminate|].
  destruct (String.eqb (in_ q) "cookie"); [discriminate|reflexivity].
Qed.

Lemma optional_absent q r o :
  facet_of q r = Some o -> required q = false ->
  obj_get (lookup_key q) o = None -> inherited (lookup_key q) = false ->
  failure q r = [].
Proof.
  intros F R G I. unfold failure.
  rewrite (validateParameter_facet q r o F), inner_absent by assumption.
  cbn [required with_name]. now rewrite R.
Qed.

Lemma in_keep_truthy m l :
  In (Some m) l -> str_empty m = false -> In m (keep_truthy l).
Proof.
  intros Hin Hm. induction l as [|x l IH]; [destruct Hin|].
  destruct Hin as [->|Hin]; simpl.
  - rewrite Hm. now left.
  - destruct x as [y|]; [destruct (str_empty y)|]; auto. right. auto.
Qed.

(** The message of a declared parameter is in the result. *)
Lemma reported p r q m :
  In q (parameters p) -> fst (validateParameter q r) = Some m ->
  In m (fst (validateRequestParameters p r)).
Proof.
  intros Hin E. unfold validateRequestParameters.
  destruct (validateRequestBody p (req_body r)) as [bodyErrors w].
  cbn [fst]. apply in_or_app. right. apply in_keep_truthy.
  - rewrite <- E, map_map.
    apply (in_map (fun x => fst (validateParameter x r))), Hin.
  - now apply (message_nonempty q r).
Qed.

(** [validateRequestParameters] returns the messages of the body first
    and then, in declaration order, exactly one message for every parameter
    that fails; a parameter that is optional and that its facet neither has
    nor inherits contributes none, and the list is empty exactly when the
    body and every parameter pass. *)
Lemma validateRequestParameters_order (p : Path) (r : Request) :
  fst (validateRequestParameters p r)
  = (fst (validateRequestBody p (req_body r))
     ++ flat_map (fun q => failure q r) (parameters p))%list
  /\ (forall q, (List.length (failure q r) <= 1)%nat)
  /\ (forall q o, facet_of q r = Some o -> required q = false ->
        obj_get (lookup_key q) o = None ->
        inherited (lookup_key q) = false -> failure q r = [])
  /\ (fst (validateRequestParameters p r) = [] <->
      fst (validateRequestBody p (req_body r)) = []
      /\ forall q, In q (parameters p) -> fst (validateParameter q r) = None).
Proof.
  assert (E : fst (validateRequestParameters p r)
              = (fst (validateRequestBody p (req_body r))
                 ++ flat_map (fun q => failure q r) (parameters p))%list).
  { unfold validateRequestParameters.
    destruct (validateRequestBody p (req_body r)) as [errs w]; simpl.
    now rewrite keep_truthy_failures. }
  split; [exact E|]. split; [|split].
  - intros q. unfold failure.
    destruct (fst (validateParameter q r)); simpl; lia.
  - intros q o. apply optional_absent.
  - rewrite E. split.
    + intros H. apply app_eq_nil in H as [Hb Hp]. split; [exact Hb|].
      intros q Hq. pose proof (proj1 (flat_map_nil _ _) Hp q Hq) as Hf.
      unfold failure in Hf.
      destruct (fst (validateParameter q r)); [discriminate|reflexivity].
    + intros [Hb Hp]. rewrite Hb. simpl. apply flat_map_nil.
      intros q Hq. unfold failure. now rewrite (Hp q Hq).
Qed.

(** C10.  A parameter that the request does not carry contributes a
    message, though it is optional, when its name is the name of a member
    that every object inherits: [typeof requestParameters[name]] is not
    ['undefined'], and the member is validated as the value of the
    parameter.  With a schema of type [string] the message is that of the
    type. *)
Theorem absent_inherited_name_is_validated (p : Path) (r : Request)
  (q : Param) (o : obj jsval) (sch : Schema) :
  In q (parameters p) -> facet_of q r = Some o -> required q = false ->
  obj_get (lookup_key q) o = None -> inherited (lookup_key q) = true ->
  schema q = Some sch -> type sch = Some "string" ->
  failure q r
  = ["Invalid " ++ in_ q ++ " param " ++ lookup_key q
     ++ ". Expected value of type string but received "
     ++ inspect_member (lookup_key q)]
  /\ In ("Invalid " ++ in_ q ++ " param " ++ lookup_key q
         ++ ". Expected value of type string but received "
         ++ inspect_member (lookup_key q))
        (fst (validateRequestParameters p r)).
Proof.
  intros Hin F R G I S T.
  assert (E : fst (validateParameter q r)
              = Some ("Invalid " ++ in_ q ++ " param " ++ lookup_key q
                      ++ ". Expected value of type string but received "
                      ++ inspect_member (lookup_key q))).
  { rewrite (validateParameter_facet q r o F).
    rewrite (inner_inherited (with_name q (lookup_key q)) o G I).
    unfold validateParameterSchema_member, validateParameterType_member.
    cbn [fst schema type in_ name with_name]. rewrite S, T. reflexivity. }
  split.
  - unfold failure. now rewrite E.
  - now apply (reported p r q).
Qed.

Lemma obj_get_none {A} (k : string) (o : obj A) :
  obj_get k o = None <-> forall k' v, In (k', v) o -> k' <> k.
Proof.
  induction o as [|[k0 v0] o IH]; simpl.
  - split; [intros _ k' v []|reflexivity].
  - destruct (String.eqb k k0) eqn:E.
    + apply String.eqb_eq in E. subst. split; [discriminate|].
      intros H. exfalso. apply (H k0 v0); [now left|reflexivity].
    + apply String.eqb_neq in E. rewrite IH. split.
      * intros H k' v [[= <- <-]|Hin]; [congruence|eauto].
      * intros H k' v Hin. apply (H k' v). now right.
Qed.

Lemma schema_message_head q v m :
  fst (validateParameterSchema q v) = Some m ->
  exists rest, m = String "I" rest.
Proof.
  unfold validateParameterSchema.
  destruct (schema q) as [sch|]; simpl; [|discriminate].
  destruct (truthy_str (type sch)); simpl; [|discriminate].
  unfold validateParameterType, validateParameterEnum.
  destruct (isValidType (type sch) v) as [[|]|e] eqn:E.
  - intros [= <-]. eexists. reflexivity.
  - destruct (isValidEnumValue (enum sch) v); [discriminate|].
    intros [= <-]. eexists. reflexivity.
  - intros [= <-]. rewrite (isValidType_throw _ _ _ E). eexists. reflexivity.
Qed.

Lemma inner_depends_on q q' rp :
  in_ q' = in_ q -> name q' = name q -> required q' = required q ->
  deprecated q' = deprecated q -> schema q' = schema q ->
  _validateParameter q' rp = _validateParameter q rp.
Proof.
  intros Hi Hn Hr Hd Hs.
  unfold _validateParameter, validateParameterSchema,
    validateParameterSchema_member.
  now rewrite Hi, Hn, Hr, Hd, Hs.
Qed.

Lemma header_validation q r :
  in_ q = "header" ->
  validateParameter q r
  = _validateParameter (with_name q (toLowerCase (name q))) (req_headers r).
Proof. intros H. unfold validateParameter. now rewrite H. Qed.

(** C9, as amended.  For a declared header parameter, validation lower-cases
    the declared name and looks that key up among the header names of the
    request as they are: the required-missing message is produced exactly
    when the parameter is required, the request has no header under the
    lower-cased name and that name is not one that every object inherits
    ([constructor], [__proto__]); the letter case of the declaration does
    not matter; and when the header names of the request are in lower case,
    the request has no header under the lower-cased name exactly when no
    name of the request agrees with the declared one up to letter case. *)
Theorem header_lookup_lowercases_declaration (q : Param) (r : Request) :
  in_ q = "header" ->
  (fst (validateParameter q r)
   = Some ("Missing required header param " ++ toLowerCase (name q))
   <-> required q = true
       /\ obj_get (toLowerCase (name q)) (req_headers r) = None
       /\ inherited (toLowerCase (name q)) = false)
  /\ (forall q', in_ q' = "header" ->
        toLowerCase (name q') = toLowerCase (name q) ->
        required q' = required q -> deprecated q' = deprecated q ->
        schema q' = schema q ->
        validateParameter q' r = validateParameter q r)
  /\ ((forall k v, In (k, v) (req_headers r) -> toLowerCase k = k) ->
      (obj_get (toLowerCase (name q)) (req_headers r) = None <->
       forall k v, In (k, v) (req_headers r) ->
                   toLowerCase k <> toLowerCase (name q))).
Proof.
  intros Hin. split; [|split].
  - rewrite (header_validation q r Hin).
    destruct (obj_get (toLowerCase (name q)) (req_headers r)) as [v|] eqn:G.
    + rewrite (inner_own (with_name q (toLowerCase (name q))) _ v G).
      cbn [fst].
      split; [|intros (_ & H & _); discriminate].
      intros H.
      destruct (schema_message_head _ v _ H) as [rest Hrest].
      discriminate Hrest.
    + destruct (inherited (toLowerCase (name q))) eqn:I.
      * rewrite (inner_inherited (with_name q (toLowerCase (name q))) _
                   G I).
        cbn [fst].
        split; [|intros (_ & _ & H); discriminate].
        intros H.
        destruct (schema_member_message_head _ _ _ H) as [rest Hrest].
        discriminate Hrest.
      * rewrite (inner_absent (with_name q (toLowerCase (name q))) _ G I).
        cbn [required with_name in_ name].
        rewrite Hin. destruct (required q); simpl.
        -- split; [now repeat split|reflexivity].
        -- split; [discriminate|intros [H _]; discriminate].
  - intros q' Hin' Hn Hr Hd Hs.
    rewrite (header_validation q r Hin), (header_validation q' r Hin').
    apply inner_depends_on; simpl; congruence.
  - intros Hlow. rewrite obj_get_none. split.
    + intros H k v Hk. rewrite (Hlow k v Hk). eauto.
    + intros H k v Hk. rewrite <- (Hlow k v Hk). eauto.
Qed.

(** The four values of the specification. *)
Lemma isValidType_instances :
  isValidType (Some "integer") (VStr "42") = Ok false
  /\ isValidType (Some "integer") (VStr "42.5") = Ok true
  /\ isValidType (Some "boolean") (VStr "true") = Ok false
  /\ isValidType (Some "boolean") (VStr "yes") = Ok true.
Proof. repeat split; vm_compute; reflexivity. Qed.

(** The rows of the table whose test does not go through [parseInt]. *)
Lemma isValidType_table (v : jsval) :
  isValidType (Some "array") v = Ok (negb (isArray v))
  /\ isValidType (Some "object") v
     = Ok (negb (String.eqb (typeof v) "object") || isArray v)
  /\ isValidType (Some "string") v
     = Ok (negb (String.eqb (typeof v) "string"))
  /\ isValidType (Some "number") v = Ok (isNaN (to_number v))
  /\ isValidType (Some "boolean") v = Ok (negb (is_boolean_text v)).
Proof. repeat split. Qed.

(** The integer row of the table, for a coercion that is not finite or
    whose magnitude is below [10^21]: the value is invalid exactly when the
    coercion is [NaN] or is not an integer. *)
Lemma integer_row_below_1e21 (v : jsval) :
  (is_finite (to_number v) = true ->
   magnitude_below 21 (to_number v) = true) ->
  isValidType (Some "integer") v
  = Ok (isNaN (to_number v) || negb (is_integer (to_number v))).
Proof.
  intros B. unfold isValidType. cbn [String.eqb Ascii.eqb Bool.eqb].
  cbv iota. f_equal.
  destruct (to_number v) as [|neg|m e].
  - reflexivity.
  - now destruct neg.
  - cbn [isNaN orb]. f_equal. apply parseInt_detects_integers.
    now apply B.
Qed.

(** The integer test on every value: invalid exactly when the coercion is
    [NaN], is not an integer, or is a finite number of magnitude [10^21] or
    more. *)
Lemma integer_row_complete (v : jsval) :
  isValidType (Some "integer") v
  = Ok (isNaN (to_number v) || negb (is_integer (to_number v))
        || (is_finite (to_number v)
            && negb (magnitude_below 21 (to_number v)))).
Proof.
  unfold isValidType. cbn [String.eqb Ascii.eqb Bool.eqb]. cbv iota. f_equal.
  destruct (to_number v) as [|neg|m e].
  - reflexivity.
  - now destruct neg.
  - cbn [isNaN orb is_finite andb].
    destruct (magnitude_below 21 (Dec m e)) eqn:B.
    + rewrite (parseInt_detects_integers m e B). cbn [negb].
      now rewrite orb_false_r.
    + rewrite (parseInt_misses_large m e B). cbn [negb].
      now rewrite orb_true_r.
Qed.

(** A type outside the six known ones: the exception of [isValidType] is
    caught and becomes the message of the parameter. *)
Lemma unknown_type_declaration paramIn nm sch v t :
  type sch = Some t -> known_type t = false ->
  validateParameterType paramIn nm sch v
  = Some ("Invalid type declaration " ++ t ++ " for " ++ paramIn
          ++ " param " ++ nm).
Proof.
  intros Ht Hk. unfold validateParameterType, isValidType. rewrite Ht.
  unfold known_type in Hk. simpl in Hk.
  repeat (apply orb_false_elim in Hk as [? Hk]).
  repeat match goal with H : String.eqb t _ = false |- _ => rewrite H; clear H end.
  reflexivity.
Qed.

(** C8.  The integer test at the numeral [1e21]: its coercion is the
    integer [10^21], and the type check reports it as invalid, because
    [parseInt] reads the [1] of the text [1e+21]. *)
Theorem integer_check_rejects_1e21 :
  to_number (VStr "1e21") = Dec 1 21
  /\ is_integer (Dec 1 21) = true
  /\ num_to_string (Dec 1 21) = "1e+21"
  /\ parseInt (Dec 1 21) = Dec 1 0
  /\ isValidType (Some "integer") (VStr "1e21") = Ok true.
Proof. repeat split; vm_compute; reflexivity. Qed.

End ValidationProperties.

(** C9.  A required header declared as [X-Token] is reported missing for a
    request that carries it under the name [X-Token]; under the name
    [x-token] it is found. *)
Lemma header_request_case_counterexample :
  obj_get "X-Token" [("X-Token", VStr "abc")] = Some (VStr "abc")
  /\ fst (validateParameter token_param
            (request_with_headers [("X-Token", VStr "abc")]))
     = Some "Missing required header param x-token"
  /\ fst (validateParameter token_param
            (request_with_headers [("x-token", VStr "abc")])) = None.
Proof. repeat split. Qed.

Lemma header_lookup_witness :
  in_ token_param = "header"
  /\ fst (validateParameter token_param (request_with_headers []))
     = Some ("Missing required header param " ++ toLowerCase (name token_param)).
Proof.
  split; [reflexivity|].
  apply (proj1 (header_lookup_lowercases_declaration (C := sample)
                  token_param (request_with_headers []) eq_refl)).
  split; [reflexivity|]. split; reflexivity.
Defined.

(** C10 on the optional query parameter [toString] of type [string] and a
    request without query: the one message is that of the parameter. *)
Lemma absent_inherited_name_is_validated_witness :
  fst (validateRequestParameters member_operation (request_with_query []))
  = ["Invalid query param toString. Expected value of type string but received [Function: toString]"]
  /\ In "Invalid query param toString. Expected value of type string but received [Function: toString]"
        (fst (validateRequestParameters member_operation
                (request_with_query []))).
Proof.
  split; [reflexivity|].
  exact (proj2 (absent_inherited_name_is_validated (C := sample)
                  member_operation (request_with_query []) member_param []
                  {| type := Some "string"; enum := None |}
                  (or_introl eq_refl) eq_refl eq_refl eq_refl eq_refl
                  eq_refl eq_refl)).
Defined.

(** The order on a request without body and without header: the message
    of the body, then the messages of the header and of the query parameter
    in declaration order, none for the optional cookie. *)
Lemma validateRequestParameters_order_witness :
  fst (validateRequestParameters order_operation order_request)
  = ["Missing required request body";
     "Missing required header param x-token";
     "Invalid query param n. Expected enum of ['1', '2'] but received '3'"].
Proof.
  rewrite (proj1 (validateRequestParameters_order (C := sample)
                    order_operation order_request)).
  reflexivity.
Defined.

(** ** Response resolution *)

Section ResolutionProperties.
Context {C : Collaborators}.

Lemma named_example_undeclared nm r :
  declares_example nm r = false -> named_example nm r = None.
Proof.
  unfold declares_example, named_example.
  destruct (first_entry (content r)) as [[mime d]|]; [|reflexivity].
  destruct (d_examples d) as [exs|]; [|reflexivity].
  destruct (obj_get nm exs); [discriminate|].
  now destruct (0 <? List.length exs)%nat.
Qed.

Lemma find_named_undeclared nm rs :
  (forall code r, In (code, r) rs -> declares_example nm r = false) ->
  find_named nm rs = None.
Proof.
  induction rs as [|[code r] rs IH]; intros H; simpl; [reflexivity|].
  rewrite (named_example_undeclared nm r (H code r (or_introl eq_refl))).
  rewrite IH; [reflexivity|]. intros c x Hx. apply (H c x). now right.
Qed.

(** The status code found by the named lookup is the key of the response
    map, a string. *)
Lemma find_named_status nm rs n rs' :
  find_named nm rs = Some (n, rs') ->
  exists code r, In (code, r) rs /\ n_statusCode n = VStr code.
Proof.
  revert n rs'. induction rs as [|[code r] rs IH]; intros n rs'; simpl.
  - discriminate.
  - destruct (named_example nm r) as [[best mime]|].
    + intros [= <- _]. exists code, r. split; [now left|reflexivity].
    + destruct (find_named nm rs) as [[n0 rest]|]; [|discriminate].
      intros [= <- _]. destruct (IH n0 rest eq_refl) as (c & x & Hin & E).
      exists c, x. split; [now right|exact E].
Qed.

(** What the named lookup does to the response map: the first response
    that has the example gets [RTag] assigned on its declared headers, and
    nothing else changes. *)
Lemma find_named_effect nm rs n rs' :
  find_named nm rs = Some (n, rs') ->
  exists pre code r post,
    rs = (pre ++ (code, r) :: post)%list
    /\ (forall c x, In (c, x) pre -> named_example nm x = None)
    /\ named_example nm r <> None
    /\ rs' = (pre ++ (code, tagged nm r) :: post)%list
    /\ n_statusCode n = VStr code.
Proof.
  revert n rs'. induction rs as [|[code r] rs IH]; intros n rs'; simpl.
  - discriminate.
  - destruct (named_example nm r) as [[best mime]|] eqn:E.
    + intros [= <- <-]. exists [], code, r, rs.
      split; [reflexivity|]. split; [intros ? ? []|].
      split; [congruence|]. split; [|reflexivity].
      unfold tagged. now destruct (headers r).
    + destruct (find_named nm rs) as [[n0 rest]|]; [|discriminate].
      intros [= <- <-].
      destruct (IH n0 rest eq_refl) as (pre & c & x & post & E1 & B & F & E2 & S).
      exists ((code, r) :: pre), c, x, post. subst.
      split; [reflexivity|]. split.
      * intros c' x' [[= <- <-]|Hin]; [exact E|eauto].
      * split; [exact F|]. split; [reflexivity|exact S].
Qed.

(** On the named-example path, whenever the example is found, the status
    code of the result is a string, the key of the response that has it. *)
Lemma named_status_is_key p sc nm n rs :
  truthy_str sc = false -> is_first_response (Some nm) = false ->
  str_empty nm = false ->
  find_named nm (responses p) = Some (n, rs) ->
  exists x w code r,
    getResponse p sc (Some nm) = (Ok x, set_responses p rs, w)
    /\ In (code, r) (responses p) /\ statusCode x = VStr code.
Proof.
  intros Hsc Hf Hn F. unfold getResponse, getFirstResponseByExampleName.
  rewrite Hsc, Hf, Hn, F. cbn [orb].
  destruct (find_named_status nm (responses p) n rs F) as (code & r & Hin & S).
  do 4 eexists. split; [reflexivity|]. split; [exact Hin|exact S].
Qed.

(** With a status code or the first-response marker the result carries a
    number and the operation is left as it was. *)
Lemma getResponse_by_status p sc nm x p' w :
  truthy_str sc || is_first_response nm = true ->
  getResponse p sc nm = (Ok x, p', w) ->
  p' = p /\ exists code, statusCode x = VNum (string_to_number code).
Proof.
  intros H. unfold getResponse. rewrite H.
  destruct (match sc with
            | Some code => if str_empty code then (getFirstResponse p, [])
                           else getResponseByStatusCode p code
            | None => (getFirstResponse p, [])
            end) as [[s|e] w0]; simpl.
  - intros [= <- <- _]. split; [reflexivity|]. now exists (s_statusCode s).
  - discriminate.
Qed.

(** C6, as amended.  With no status code, an example name that is not
    empty, is not the first-response marker and that no response declares
    in its primary content resolves to status 400, the diagnostic body that quotes the
    name, the mime type [application/json] and the single header [RTag]
    generated from a descriptor whose only example is the name; one warning
    is logged and the operation is left as it was.  With no example name the
    result is status 400, body [null], [application/json] and [null]
    headers, without any warning. *)
Theorem unknown_example_name (p : Path) (sc : option string) (nm : string) :
  truthy_str sc = false ->
  str_empty nm = false ->
  nm <> FIRST_RESPONSE ->
  (forall code r, In (code, r) (responses p) -> declares_example nm r = false) ->
  getResponse p sc (Some nm)
  = (Ok {| statusCode := VNum (Dec 400 0);
           r_headers := Defined [("RTag", generate (RTag nm) None)];
           body := not_found_message nm;
           responseMimeType := Some "application/json" |},
     p, [not_found_warning nm])
  /\ d_examples (RTag nm) = Some [("ex_01", {| value := Some (VStr nm) |})]
  /\ getResponse p sc None
     = (Ok {| statusCode := VNum (Dec 400 0);
              r_headers := Null;
              body := VNull;
              responseMimeType := Some "application/json" |},
        p, []).
Proof.
  intros Hsc Hnm Hfirst Hnone.
  assert (F : String.eqb nm FIRST_RESPONSE = false)
    by now apply String.eqb_neq.
  unfold getResponse, getFirstResponseByExampleName. simpl.
  rewrite Hsc, F, Hnm. simpl.
  rewrite (find_named_undeclared nm (responses p) Hnone).
  repeat split.
Qed.

End ResolutionProperties.

(** C6.  The first-response marker, which no response of the sample
    operation declares as an example name, resolves to the first declared
    response, status 200, without any warning; the empty name, which no
    response declares either, is answered as no name: body [null], [null]
    headers, no warning. *)
Lemma marker_name_counterexample :
  (forall code r, In (code, r) (responses pet_operation) ->
     declares_example FIRST_RESPONSE r = false
     /\ declares_example EmptyString r = false)
  /\ getResponse pet_operation None (Some FIRST_RESPONSE)
     = (Ok {| statusCode := VNum (Dec 200 0);
              r_headers := Defined [("X-Rate-Limit",
                                     VObj [("type", VStr "integer")])];
              body := pet;
              responseMimeType := Some "application/json" |},
        pet_operation, [])
  /\ getResponse pet_operation None (Some EmptyString)
     = (Ok {| statusCode := VNum (Dec 400 0);
              r_headers := Null;
              body := VNull;
              responseMimeType := Some "application/json" |},
        pet_operation, []).
Proof.
  split; [|split; reflexivity].
  intros code r [[= <- <-]|[]]. split; reflexivity.
Qed.

(** Witness of C6 on the sample operation: the name [missing]. *)
Lemma unknown_example_name_witness :
  getResponse pet_operation None (Some "missing")
  = (Ok {| statusCode := VNum (Dec 400 0);
           r_headers := Defined [("RTag", VStr "missing")];
           body := not_found_message "missing";
           responseMimeType := Some "application/json" |},
     pet_operation, [not_found_warning "missing"]).
Proof.
  refine (proj1 (unknown_example_name (C := sample) pet_operation None
                   "missing" eq_refl eq_refl _ _)).
  - discriminate.
  - intros code r [[= <- <-]|[]]. reflexivity.
Defined.

(** C5.  Resolving the example [ex1] assigns [RTag] on the declared headers
    of response [200]: the operation after the call differs from the
    operation before it, and a later resolution by status code answers
    the header [RTag] that the declaration never had. *)
Theorem getResponse_mutates_declared_headers :
  snd (fst (getResponse pet_operation None (Some "ex1")))
  = set_responses pet_operation
      [("200",
        {| headers := Some [("X-Rate-Limit", rate_header);
                            ("RTag", RTag "ex1")];
           content := Some pet_content |})]
  /\ snd (fst (getResponse pet_operation None (Some "ex1"))) <> pet_operation
  /\ fst (fst (getResponse pet_operation (Some "200") None))
     = Ok {| statusCode := VNum (Dec 200 0);
             r_headers := Defined [("X-Rate-Limit",
                                    VObj [("type", VStr "integer")])];
             body := pet;
             responseMimeType := Some "application/json" |}
  /\ fst (fst (getResponse
                 (snd (fst (getResponse pet_operation None (Some "ex1"))))
                 (Some "200") None))
     = Ok {| statusCode := VNum (Dec 200 0);
             r_headers := Defined [("X-Rate-Limit",
                                    VObj [("type", VStr "integer")]);
                                   ("RTag", VStr "ex1")];
             body := pet;
             responseMimeType := Some "application/json" |}.
Proof.
  split; [reflexivity|]. split; [discriminate|]. split; reflexivity.
Qed.

(** C7.  On the named-example path the status code of the result is the
    key of the response map, the string [200]; by status code the same
    response carries the number 200. *)
Theorem named_example_status_is_string :
  fst (fst (getResponse pet_operation None (Some "ex1")))
  = Ok {| statusCode := VStr "200";
          r_headers := Defined [("X-Rate-Limit",
                                 VObj [("type", VStr "integer")]);
                                ("RTag", VStr "ex1")];
          body := pet;
          responseMimeType := Some "application/json" |}
  /\ typeof (VStr "200") = "string"
  /\ option_map statusCode
       (match fst (fst (getResponse pet_operation (Some "200") None)) with
        | Ok x => Some x
        | Throw _ => None
        end)
     = Some (VNum (Dec 200 0)).
Proof. repeat split. Qed.

(** The response keyed [default] resolves to a status code that is a
    number but not an integer: [Number('default')] is [NaN]. *)
Lemma default_status_is_NaN :
  fst (fst (getResponse default_operation None (Some FIRST_RESPONSE)))
  = Ok {| statusCode := VNum NaN; r_headers := Undefined; body := VNull;
          responseMimeType := None |}.
Proof. reflexivity. Qed.

(** ** Example matching *)

Section WinnerSelection.
Variable total : obj Z.



Lemma qualifies_total k v :
  qualifies total k v = true -> 0 < v /\ obj_get k total = Some v.
Proof.
  unfold qualifies, eq_count. intros H.
  apply andb_true_iff in H as [H1 H2]. apply Z.ltb_lt in H1.
  destruct (obj_get k total) as [y|]; [|discriminate].
  apply Z.eqb_eq in H2. now subst.
Qed.



(** A name that the selection returns is a qualifying name of the
    tally. *)
Lemma select_some m :
  forall rn w,
    fold_left (select_step total) m rn = Some w ->
    rn = Some w \/ exists v, In (w, v) m /\ qualifies total w v = true.
Proof.
  induction m as [|[k v] m IH]; intros rn w; cbn [fold_left].
  - now left.
  - intros H. destruct (IH _ _ H) as [E|(v' & Hin & Q)].
    + unfold select_step in E. fold (qualifies total k v) in E.
      destruct (qualifies total k v) eqn:Q.
      * destruct (negb (truthy_str rn)
                  || gt_count v (lookup_count rn total)).
        -- injection E as <-. right. exists v. split; [now left|exact Q].
        -- now left.
      * now left.
    + right. exists v'. split; [now right|exact Q].
Qed.



End WinnerSelection.

Lemma obj_replace_nonempty {A} k (v : A) o :
  o <> [] -> obj_replace k v o <> [].
Proof.
  destruct o as [|[k' v'] o]; [congruence|]. simpl.
  now destruct (String.eqb k k').
Qed.

Lemma obj_insert_index_nonempty {A} i k (v : A) o :
  obj_insert_index i k v o <> [].
Proof.
  destruct o as [|[k' v'] o]; simpl; [discriminate|].
  destruct (array_index k') as [j|]; [|discriminate].
  now destruct (j <? i).
Qed.

Lemma obj_set_nonempty {A} k (v : A) o : obj_set k v o <> [].
Proof.
  unfold obj_set. destruct (obj_get k o) eqn:G.
  - apply obj_replace_nonempty. now destruct o.
  - destruct (array_index k).
    + apply obj_insert_index_nonempty.
    + now destruct o.
Qed.

Lemma match_facet_no_examples ps declared facet m :
  Forall (fun q => no_examples (examples q)) ps ->
  match_facet ps declared facet m = Ok m.
Proof.
  intros F. unfold match_facet.
  induction facet as [|[key actual] facet IH]; simpl; [reflexivity|].
  destruct (find (fun x => declared x key) ps) as [define|] eqn:E.
  - apply find_some in E as [Hin _].
    rewrite Forall_forall in F. destruct (F define Hin) as [-> | ->];
      simpl; exact IH.
  - simpl. exact IH.
Qed.

Lemma match_body_no_examples c bodyObject m m' :
  Forall (fun e => no_examples (d_examples (snd e))) c ->
  match_body c bodyObject m = Ok m' -> m' = m.
Proof.
  intros F. unfold match_body.
  induction c as [|[k d] c IH]; simpl.
  - now intros [= <-].
  - inversion F as [|? ? Hd F']; subst. simpl in Hd.
    destruct Hd as [-> | ->]; simpl; [discriminate|]. now apply IH.
Qed.

Section MatchingProperties.
Context {C : Collaborators}.

Lemma findPreferred_unfold p url q b h :
  findPreferredExampleByRequest p url q b h
  = (m1 <- match_path p url [] ;;
     m2 <- match_query p q m1 ;;
     m3 <- match_headers p h m2 ;;
     m4 <- match_request_body p b m3 ;;
     Ok (select_winner (totalExamples p) m4)).
Proof.
  unfold findPreferredExampleByRequest, matchExamples. cbn [strict_equal].
  destruct (match_path p url []) as [m1|]; [|reflexivity]. cbn [bind].
  destruct (match_query p q m1) as [m2|]; [|reflexivity]. cbn [bind].
  destruct (match_headers p h m2) as [m3|]; reflexivity.
Qed.

Lemma findPreferred_winner p url q b h :
  findPreferredExampleByRequest p url q b h
  = (m <- matchExamples p url q b h ;; Ok (select_winner (totalExamples p) m)).
Proof. reflexivity. Qed.


(** C3.  For an operation none of whose parameters and request-body
    entries declares an example, [findPreferredExampleByRequest] does not
    short-circuit: whenever it returns, it returns [undefined], never the
    first-response marker. *)
Theorem no_examples_returns_undefined p url q b h :
  totalExamples p = [] ->
  (forall r, findPreferredExampleByRequest p url q b h = Ok r -> r = None)
  /\ findPreferredExampleByRequest p url q b h <> Ok (Some FIRST_RESPONSE).
Proof.
  intros T.
  assert (G : forall r,
             findPreferredExampleByRequest p url q b h = Ok r -> r = None).
  { intros r. rewrite findPreferred_winner.
    destruct (matchExamples p url q b h) as [m|e]; cbn [bind];
      [|discriminate].
    intros [= <-].
    destruct (select_winner (totalExamples p) m) as [w|] eqn:S;
      [|reflexivity].
    unfold select_winner in S.
    destruct (select_some _ _ _ _ S) as [E|(v & Hin & Q)]; [discriminate|].
    destruct (qualifies_total _ _ _ Q) as [_ G]. rewrite T in G.
    discriminate. }
  split; [exact G|]. intros E. specialize (G _ E). discriminate.
Qed.


(** Any two numbers pass the comparison of the facet loops: a number has
    no entries. *)
Lemma numbers_compare_equal (a b : jsnum) :
  entries_string (Some (VNum a)) = entries_string (Some (VNum b)).
Proof. reflexivity. Qed.

(** C1.  On the operation with the query parameter [id] and the examples
    [exA] (value 1) and [exB] (value 2), the parsed query [{id: 3}] selects
    [exA], as the parsed query [{id: 1}] does; the query [{id: "1"}], whose
    value is the string that an HTTP request carries, selects nothing. *)
Theorem query_id_3_selects_exA :
  JSON_parse (query_id "3") = Some (VObj [("id", VNum (Dec 3 0))])
  /\ findPreferredExampleByRequest id_operation "/items"
       (Some (query_id "3")) None None = Ok (Some "exA")
  /\ JSON_parse (query_id "1") = Some (VObj [("id", VNum (Dec 1 0))])
  /\ findPreferredExampleByRequest id_operation "/items"
       (Some (query_id "1")) None None = Ok (Some "exA")
  /\ JSON_parse (query_id (quoted "1")) = Some (VObj [("id", VStr "1")])
  /\ findPreferredExampleByRequest id_operation "/items"
       (Some (query_id (quoted "1"))) None None = Ok None.
Proof. repeat split. Qed.

End MatchingProperties.

(** C3 on the operation without examples: the matcher returns [undefined],
    and the handler, without preference, answers status 400 and not the
    first response. *)
Lemma no_examples_witness :
  totalExamples plain_operation = []
  /\ findPreferredExampleByRequest plain_operation "/ping" None None None
     = Ok None
  /\ handler_getResponse plain_operation "/ping" None None None None None
     = Ok (Ok {| statusCode := VNum (Dec 400 0); r_headers := Null;
                 body := VNull;
                 responseMimeType := Some "application/json" |},
           plain_operation, []).
Proof.
  split; [reflexivity|]. split; [|reflexivity].
  destruct (findPreferredExampleByRequest plain_operation "/ping"
              None None None) as [r|e] eqn:E.
  - f_equal.
    exact (proj1 (no_examples_returns_undefined (C := sample) plain_operation
                    "/ping" None None None eq_refl) r E).
  - discriminate.
Defined.



(** On string values the comparison of the facet loops does tell the
    examples apart. *)
Lemma string_examples_are_told_apart :
  findPreferredExampleByRequest name_operation "/users/ann" None None None
  = Ok (Some "exA")
  /\ findPreferredExampleByRequest name_operation "/users/bob" None None None
     = Ok (Some "exB")
  /\ findPreferredExampleByRequest name_operation "/users/eve" None None None
     = Ok None.
Proof. repeat split. Qed.

(** An example declared on one query parameter and on the one content
    entry of the request body is selected when both facets match and is
    not when only the query matches. *)
Lemma cross_facet_example :
  totalExamples both_operation = [("both", 2)]
  /\ findPreferredExampleByRequest both_operation "/search" (Some query_q)
       (Some (body_x "1")) None = Ok (Some "both")
  /\ findPreferredExampleByRequest both_operation "/search" (Some query_q)
       (Some (body_x "2")) None = Ok None
  /\ findPreferredExampleByRequest both_operation "/search" (Some query_q)
       None None = Ok None.
Proof. repeat split. Qed.



(** ** Objects and tallies *)

Lemma obj_get_replace_same {A} k (v : A) o :
  obj_get k o <> None -> obj_get k (obj_replace k v o) = Some v.
Proof.
  induction o as [|[k0 v0] o IH]; simpl; [congruence|].
  destruct (String.eqb k k0) eqn:E; simpl; rewrite E; [reflexivity|exact IH].
Qed.

Lemma obj_get_replace_other {A} k k' (v : A) o :
  k' <> k -> obj_get k' (obj_replace k v o) = obj_get k' o.
Proof.
  intros N. induction o as [|[k0 v0] o IH]; simpl; [reflexivity|].
  destruct (String.eqb k k0) eqn:E; simpl.
  - apply String.eqb_eq in E. subst k0.
    now replace (String.eqb k' k) with false
      by (symmetry; apply String.eqb_neq; exact N).
  - now rewrite IH.
Qed.

Lemma obj_get_insert_same {A} i k (v : A) o :
  obj_get k o = None -> obj_get k (obj_insert_index i k v o) = Some v.
Proof.
  induction o as [|[k0 v0] o IH]; simpl.
  - now rewrite String.eqb_refl.
  - destruct (String.eqb k k0) eqn:E; [discriminate|]. intros G.
    destruct (array_index k0) as [j|].
    + destruct (j <? i); simpl.
      * rewrite E. now apply IH.
      * now rewrite String.eqb_refl.
    + simpl. now rewrite String.eqb_refl.
Qed.

Lemma obj_get_insert_other {A} i k k' (v : A) o :
  k' <> k -> obj_get k' (obj_insert_index i k v o) = obj_get k' o.
Proof.
  intros N. apply String.eqb_neq in N.
  induction o as [|[k0 v0] o IH]; simpl.
  - now rewrite N.
  - destruct (array_index k0) as [j|].
    + destruct (j <? i); simpl.
      * now rewrite IH.
      * now rewrite N.
    + simpl. now rewrite N.
Qed.

Lemma obj_get_app {A} k (o o' : obj A) :
  obj_get k (o ++ o')%list
  = match obj_get k o with Some v => Some v | None => obj_get k o' end.
Proof.
  induction o as [|[k0 v0] o IH]; simpl; [reflexivity|].
  now destruct (String.eqb k k0).
Qed.

(** Reading a property after an assignment. *)
Lemma obj_get_set_same {A} k (v : A) o : obj_get k (obj_set k v o) = Some v.
Proof.
  unfold obj_set. destruct (obj_get k o) eqn:G.
  - apply obj_get_replace_same. congruence.
  - destruct (array_index k).
    + now apply obj_get_insert_same.
    + rewrite obj_get_app, G. simpl. now rewrite String.eqb_refl.
Qed.

Lemma obj_get_set_other {A} k k' (v : A) o :
  k' <> k -> obj_get k' (obj_set k v o) = obj_get k' o.
Proof.
  intros N. unfold obj_set. destruct (obj_get k o) eqn:G.
  - now apply obj_get_replace_other.
  - destruct (array_index k).
    + now apply obj_get_insert_other.
    + rewrite obj_get_app. simpl.
      replace (String.eqb k' k) with false
        by (symmetry; now apply String.eqb_neq).
      now destruct (obj_get k' o).
Qed.

Lemma obj_get_set {A} k k' (v : A) o :
  obj_get k' (obj_set k v o)
  = if String.eqb k' k then Some v else obj_get k' o.
Proof.
  destruct (String.eqb k' k) eqn:E.
  - apply String.eqb_eq in E. subst. apply obj_get_set_same.
  - apply String.eqb_neq in E. now apply obj_get_set_other.
Qed.

(** The counter of a name that the tally does not inherit, after one
    increment. *)
Lemma obj_get_bump k k' t :
  inherited k' = false ->
  obj_get k' (bump k t)
  = if String.eqb k' k
    then Some (match obj_get k t with Some n => n + 1 | None => 1 end)
    else obj_get k' t.
Proof.
  intros I. unfold bump, read.
  destruct (obj_get k t) as [n|] eqn:G.
  - destruct (n =? 0) eqn:Z0.
    + apply Z.eqb_eq in Z0. subst n.
      rewrite obj_get_set_same, !obj_get_set.
      now destruct (String.eqb k' k).
    + rewrite G, obj_get_set. reflexivity.
  - destruct (inherited k) eqn:Ik.
    + destruct (String.eqb k' k) eqn:E.
      * apply String.eqb_eq in E. subst k'. congruence.
      * destruct (String.eqb k "__proto__"); [reflexivity|].
        now rewrite obj_get_set, E.
    + rewrite obj_get_set_same, !obj_get_set.
      now destruct (String.eqb k' k).
Qed.

Lemma counts_bump k t c :
  counts t c ->
  counts (bump k t) (fun nm => c nm + if String.eqb nm k then 1 else 0).
Proof.
  intros H nm I. destruct (H nm I) as [P G]. rewrite (obj_get_bump _ _ _ I).
  destruct (String.eqb nm k) eqn:E.
  - apply String.eqb_eq in E. subst nm. split; [lia|].
    rewrite G. unfold of_count.
    destruct (c k =? 0) eqn:Z0.
    + apply Z.eqb_eq in Z0. rewrite Z0. reflexivity.
    + apply Z.eqb_neq in Z0.
      replace (c k + 1 =? 0) with false by (symmetry; apply Z.eqb_neq; lia).
      reflexivity.
  - split; [lia|]. now rewrite Z.add_0_r.
Qed.

Lemma counts_ext t c c' :
  (forall nm, c nm = c' nm) -> counts t c -> counts t c'.
Proof. intros E H nm I. rewrite <- E. now apply H. Qed.

Lemma occurrences_cons nm k ks :
  occurrences nm (k :: ks)
  = (if String.eqb nm k then 1 else 0) + occurrences nm ks.
Proof.
  unfold occurrences. simpl.
  destruct (string_dec k nm) as [->|N].
  - rewrite String.eqb_refl. lia.
  - replace (String.eqb nm k) with false
      by (symmetry; apply String.eqb_neq; congruence).
    lia.
Qed.

Lemma counts_fold_bump ks :
  forall t c, counts t c ->
  counts (fold_left (fun acc k => bump k acc) ks t)
    (fun nm => c nm + occurrences nm ks).
Proof.
  induction ks as [|k ks IH]; intros t c H; cbn [fold_left].
  - eapply counts_ext; [|exact H]. intros nm. unfold occurrences. simpl. lia.
  - eapply counts_ext; [|apply IH, counts_bump, H].
    intros nm. cbv beta. rewrite occurrences_cons. lia.
Qed.

Lemma counts_tally_names {A} (e : option (obj A)) t c :
  counts t c ->
  counts (match e with Some exs => tally_names exs t | None => t end)
    (fun nm => c nm + declared_in nm e).
Proof.
  intros H. destruct e as [exs|]; unfold declared_in.
  - apply counts_fold_bump, H.
  - eapply counts_ext; [|exact H]. intros nm. lia.
Qed.

Lemma counts_tally_parameters ps :
  forall t c, counts t c ->
  counts (tally_parameters ps t)
    (fun nm => c nm + sum (map (fun q => declared_in nm (examples q)) ps)).
Proof.
  unfold tally_parameters.
  induction ps as [|q ps IH]; intros t c H; cbn [fold_left map].
  - eapply counts_ext; [|exact H]. intros nm. simpl. lia.
  - eapply counts_ext;
      [|apply IH, (counts_tally_names (examples q)), H].
    intros nm. cbv beta. simpl. lia.
Qed.

Lemma counts_tally_content cs :
  forall t c, counts t c ->
  counts (tally_content cs t)
    (fun nm => c nm
               + sum (map (fun e => declared_in nm (d_examples (snd e))) cs)).
Proof.
  unfold tally_content.
  induction cs as [|[k d] cs IH]; intros t c H; cbn [fold_left map].
  - eapply counts_ext; [|exact H]. intros nm. simpl. lia.
  - eapply counts_ext;
      [|apply IH, (counts_tally_names (d_examples d)), H].
    intros nm. cbv beta. simpl. lia.
Qed.

Lemma occurrences_nonneg nm ks : 0 <= occurrences nm ks.
Proof. unfold occurrences. lia. Qed.

(** The tally [totalExamples] holds, for every name that it does not
    inherit, the number of [examples] maps that declare it. *)
Lemma totalExamples_counts p : counts (totalExamples p) (declared_count p).
Proof.
  assert (E : counts [] (fun _ => 0))
    by (intros nm _; split; [lia|reflexivity]).
  unfold totalExamples, declared_count, declared_content.
  destruct (requestBody p) as [rb|].
  - destruct (rb_content rb) as [c|].
    + eapply counts_ext;
        [|apply counts_tally_content, counts_tally_parameters, E].
      intros nm. cbv beta. lia.
    + eapply counts_ext; [|apply counts_tally_parameters, E].
      intros nm. cbv beta. lia.
  - eapply counts_ext; [|apply counts_tally_parameters, E].
    intros nm. cbv beta. lia.
Qed.

(** ** More on example matching *)

Lemma toLowerCase_idempotent s : toLowerCase (toLowerCase s) = toLowerCase s.
Proof.
  induction s as [|c s IH]; simpl; [reflexivity|]. f_equal; [|exact IH].
  unfold lower_char at 1.
  destruct ((65 <=? char_code (lower_char c))
            && (char_code (lower_char c) <=? 90)) eqn:E; [|reflexivity].
  exfalso. apply andb_true_iff in E as [E1 E2].
  apply Z.leb_le in E1. apply Z.leb_le in E2.
  unfold lower_char in E1, E2.
  destruct ((65 <=? char_code c) && (char_code c <=? 90)) eqn:U.
  - apply andb_true_iff in U as [U1 U2].
    apply Z.leb_le in U1. apply Z.leb_le in U2.
    unfold char_code in *.
    rewrite nat_ascii_embedding in E1, E2 by lia. lia.
  - apply andb_false_iff in U as [U|U]; apply Z.leb_gt in U; lia.
Qed.

Lemma for_each_throws {A S} (body : A -> S -> res S) x l :
  In x l -> (forall s, exists e, body x s = Throw e) ->
  forall s, exists e, for_each l body s = Throw e.
Proof.
  intros Hin Hx. induction l as [|y l IH]; [destruct Hin|].
  intros s. cbn [for_each].
  destruct Hin as [->|Hin].
  - destruct (Hx s) as [e ->]. now exists e.
  - destruct (body y s) as [s'|e]; cbn [bind]; [now apply IH|now exists e].
Qed.

Section MoreMatching.
Context {C : Collaborators}.

(** X1.  The tally [totalExamples] holds, for every example name that
    is not the name of an inherited member, the number of [examples] maps
    that declare it, those of the parameters and those of the content
    entries of the request body; such a name that none declares has no
    entry. *)
Theorem total_tally_counts_declarations (p : Path) (nm : string) :
  inherited nm = false ->
  obj_get nm (totalExamples p) = of_count (declared_count p nm)
  /\ 0 <= declared_count p nm.
Proof. intros I. destruct (totalExamples_counts p nm I) as [P G]. now split. Qed.

(** X2.  A name that [findPreferredExampleByRequest] returns and that is
    not the name of an inherited member is declared by the operation, and
    its match counter is the number of its declarations. *)
Theorem returned_name_is_declared p url q b h w :
  findPreferredExampleByRequest p url q b h = Ok (Some w) ->
  inherited w = false ->
  0 < declared_count p w
  /\ exists m, matchExamples p url q b h = Ok m
               /\ In (w, declared_count p w) m.
Proof.
  rewrite findPreferred_winner.
  destruct (matchExamples p url q b h) as [m|e]; cbn [bind]; [|discriminate].
  intros [= H] I. unfold select_winner in H.
  destruct (select_some _ _ _ _ H) as [E|(v & Hin & Q)]; [discriminate|].
  destruct (qualifies_total _ _ _ Q) as [Pos G].
  destruct (totalExamples_counts p w I) as [_ G'].
  rewrite G in G'. unfold of_count in G'.
  destruct (declared_count p w =? 0); [discriminate|].
  injection G' as <-. split; [exact Pos|]. now exists m.
Qed.

Lemma is_header_lower x key :
  is_header x (toLowerCase key) = is_header x key.
Proof. unfold is_header. now rewrite toLowerCase_idempotent. Qed.

Lemma match_facet_lower_keys ps hs :
  forall m, match_facet ps is_header (lower_keys hs) m
            = match_facet ps is_header hs m.
Proof.
  unfold match_facet.
  induction hs as [|[k v] hs IH]; intros m; cbn [lower_keys map for_each];
    [reflexivity|].
  replace (find (fun x => is_header x (toLowerCase k)) ps)
    with (find (fun x => is_header x k) ps).
  - destruct (match find (fun x => is_header x k) ps with
              | Some define =>
                  match examples define with
                  | Some exs => match_examples exs v m
                  | None => Ok m
                  end
              | None => Ok m
              end) as [m'|e]; cbn [bind]; [apply IH|reflexivity].
  - clear. induction ps as [|x ps IH]; simpl; [reflexivity|].
    now rewrite is_header_lower, IH.
Qed.

(** X3.  Example matching does not depend on the letter case of the
    header names of the request, when no two of them agree up to letter
    case. *)
Theorem header_matching_ignores_request_case p url q b hs :
  distinct_lower hs ->
  findPreferredExampleByRequest p url q b (Some (lower_keys hs))
  = findPreferredExampleByRequest p url q b (Some hs).
Proof.
  intros _. rewrite !findPreferred_unfold. unfold match_headers.
  destruct (match_path p url []) as [m1|]; cbn [bind]; [|reflexivity].
  destruct (match_query p q m1) as [m2|]; cbn [bind]; [|reflexivity].
  now rewrite match_facet_lower_keys.
Qed.

(** X4.  For a URI with a path variable, a URL that the template does not
    bind makes [findPreferredExampleByRequest] throw the [TypeError] of
    [Object.entries(null)]. *)
Theorem unbound_url_throws p url q b h :
  has_char "{" (uri p) = true ->
  path_test (template (uri p)) url = None ->
  findPreferredExampleByRequest p url q b h = Throw cannot_convert.
Proof.
  intros U N. rewrite findPreferred_unfold. unfold match_path.
  now rewrite U, N.
Qed.

Lemma match_body_throws c bodyObject :
  (exists k d, In (k, d) c /\ d_examples d = None) ->
  forall m, exists e, match_body c bodyObject m = Throw e.
Proof.
  intros (k & d & Hin & E). unfold match_body.
  apply (for_each_throws _ (k, d)); [exact Hin|].
  intros s. rewrite E. now exists cannot_convert.
Qed.

(** X5.  When a content entry of the declared request body has no
    [examples], a request with a truthy body makes
    [findPreferredExampleByRequest] throw: the loop that counts the
    declarations skips such an entry, the loop that matches the body does
    not. *)
Theorem body_without_examples_throws p url q b h c v :
  declared_content p = Some c ->
  (exists k d, In (k, d) c /\ d_examples d = None) ->
  b = Some v -> truthy v = true ->
  exists e, findPreferredExampleByRequest p url q b h = Throw e.
Proof.
  intros D Hc -> Tv. rewrite findPreferred_unfold.
  destruct (match_path p url []) as [m1|e1]; cbn [bind]; [|now exists e1].
  destruct (match_query p q m1) as [m2|e2]; cbn [bind]; [|now exists e2].
  destruct (match_headers p h m2) as [m3|e3]; cbn [bind]; [|now exists e3].
  unfold match_request_body. rewrite D, Tv.
  destruct (match v with VStr text => json_parse text | _ => Ok v end)
    as [bodyObject|e4]; cbn [bind]; [|now exists e4].
  destruct (match_body_throws c bodyObject Hc m3) as [e ->]. now exists e.
Qed.

End MoreMatching.

Lemma returned_name_is_declared_witness :
  findPreferredExampleByRequest id_operation "/items"
    (Some (query_id "1")) None None = Ok (Some "exA")
  /\ 0 < declared_count id_operation "exA".
Proof.
  split; [reflexivity|].
  exact (proj1 (returned_name_is_declared (C := sample) id_operation "/items"
                  (Some (query_id "1")) None None "exA" eq_refl eq_refl)).
Defined.

Lemma unbound_url_throws_witness :
  findPreferredExampleByRequest name_operation "/teams/ann" None None None
  = Throw cannot_convert.
Proof.
  exact (unbound_url_throws (C := sample) name_operation "/teams/ann"
           None None None eq_refl eq_refl).
Defined.

Lemma body_without_examples_throws_witness :
  exists e,
    findPreferredExampleByRequest upload_operation "/upload" None
      (Some (VStr "{}")) None = Throw e.
Proof.
  refine (body_without_examples_throws (C := sample) upload_operation
            "/upload" None (Some (VStr "{}")) None _ (VStr "{}")
            eq_refl _ eq_refl eq_refl).
  eexists _, _. split; [left; reflexivity|reflexivity].
Defined.

Lemma total_tally_counts_declarations_witness :
  obj_get "both" (totalExamples mode_operation) = Some 2.
Proof.
  exact (proj1 (total_tally_counts_declarations mode_operation "both"
                  eq_refl)).
Defined.

Lemma header_matching_ignores_request_case_witness :
  findPreferredExampleByRequest mode_operation "/modes" (Some query_q) None
    (Some [("x-mode", VStr "a")])
  = findPreferredExampleByRequest mode_operation "/modes" (Some query_q) None
      (Some [("X-Mode", VStr "a")]).
Proof.
  apply (header_matching_ignores_request_case (C := sample) mode_operation
           "/modes" (Some query_q) None [("X-Mode", VStr "a")]).
  repeat constructor. intros [].
Defined.

(** ** More on response resolution *)

Lemma obj_get_none_keys {A} k (o : obj A) :
  obj_get k o = None <-> ~ In k (obj_keys o).
Proof.
  unfold obj_keys. induction o as [|[k0 v0] o IH]; simpl.
  - split; [intros _ []|reflexivity].
  - destruct (String.eqb k k0) eqn:E.
    + apply String.eqb_eq in E. subst. split; [discriminate|].
      intros N. exfalso. apply N. now left.
    + apply String.eqb_neq in E. rewrite IH. split.
      * intros N [H|H]; [congruence|contradiction].
      * intros N H. apply N. now right.
Qed.

Lemma obj_keys_replace {A} k (v : A) o :
  obj_keys (obj_replace k v o) = obj_keys o.
Proof.
  unfold obj_keys. induction o as [|[k0 v0] o IH]; simpl; [reflexivity|].
  destruct (String.eqb k k0); simpl; [reflexivity|now rewrite IH].
Qed.

Lemma obj_keys_insert {A} i k (v : A) o :
  exists l1 l2, obj_keys o = (l1 ++ l2)%list
                /\ obj_keys (obj_insert_index i k v o) = (l1 ++ k :: l2)%list.
Proof.
  unfold obj_keys. induction o as [|[k0 v0] o IH]; simpl.
  - now exists [], [].
  - destruct (array_index k0) as [j|].
    + destruct (j <? i); simpl.
      * destruct IH as (l1 & l2 & E1 & E2).
        exists (k0 :: l1), l2. simpl. now rewrite E1, E2.
      * now exists [], (k0 :: map fst o).
    + now exists [], (k0 :: map fst o).
Qed.

Lemma NoDup_insert_middle {A} (x : A) l1 l2 :
  NoDup (l1 ++ l2) -> ~ In x (l1 ++ l2) -> NoDup (l1 ++ x :: l2).
Proof.
  intros N H. induction l1 as [|y l1 IH]; simpl in *.
  - now constructor.
  - inversion N as [|? ? Hy N']; subst. constructor.
    + intros Hin. apply in_app_or in Hin as [Hin|[->|Hin]].
      * apply Hy, in_or_app. now left.
      * apply H. now left.
      * apply Hy, in_or_app. now right.
    + apply IH; [exact N'|]. intros Hin. apply H. now right.
Qed.

(** An assignment keeps the property names distinct. *)
Lemma NoDup_obj_set {A} k (v : A) o :
  NoDup (obj_keys o) -> NoDup (obj_keys (obj_set k v o)).
Proof.
  intros N. unfold obj_set. destruct (obj_get k o) eqn:G.
  - now rewrite obj_keys_replace.
  - apply obj_get_none_keys in G. destruct (array_index k) as [i|].
    + destruct (obj_keys_insert i k v o) as (l1 & l2 & E1 & E2).
      rewrite E2. rewrite E1 in N, G. now apply NoDup_insert_middle.
    + unfold obj_keys in *. rewrite map_app. simpl.
      rewrite <- (app_nil_r (map fst o)) in N, G.
      now apply NoDup_insert_middle.
Qed.

Lemma find_named_at nm pre code r post best mime :
  (forall c x, In (c, x) pre -> named_example nm x = None) ->
  named_example nm r = Some (best, mime) ->
  find_named nm (pre ++ (code, r) :: post)%list
  = Some ({| n_statusCode := VStr code; n_body := best;
             n_responseMimeType := mime;
             n_headers := Defined (obj_set "RTag" (RTag nm)
                                     (headers_or_empty r)) |},
          (pre ++ (code, tagged nm r) :: post)%list).
Proof.
  intros Hpre Hr. induction pre as [|[c x] pre IH]; simpl.
  - rewrite Hr. unfold tagged, headers_or_empty. now destruct (headers r).
  - rewrite (Hpre c x (or_introl eq_refl)).
    rewrite IH; [reflexivity|]. intros c' x' H. apply (Hpre c' x'). now right.
Qed.

Lemma named_example_value nm r :
  truthy_opt (example_value nm r) = false -> named_example nm r = None.
Proof.
  unfold example_value, named_example.
  destruct (first_entry (content r)) as [[mime d]|]; [|reflexivity].
  destruct (d_examples d) as [exs|]; [|reflexivity].
  destruct (0 <? List.length exs)%nat; [|reflexivity].
  destruct (obj_get nm exs) as [ex|]; [|reflexivity].
  destruct (value ex) as [v|]; [|reflexivity].
  simpl. now intros ->.
Qed.

Lemma find_named_none nm rs :
  (forall c x, In (c, x) rs -> named_example nm x = None) ->
  find_named nm rs = None.
Proof.
  induction rs as [|[c x] rs IH]; intros H; simpl; [reflexivity|].
  rewrite (H c x (or_introl eq_refl)).
  rewrite IH; [reflexivity|]. intros c' x' Hin. apply (H c' x'). now right.
Qed.

Section MoreResolution.
Context {C : Collaborators}.

Lemma generated_headers_fold hs :
  NoDup (obj_keys hs) ->
  forall acc k,
    obj_get k
      (fold_left (fun responseHeaders '(headerName, headerData) =>
                    obj_set headerName (generate headerData None)
                      responseHeaders) hs acc)
    = match obj_get k hs with
      | Some d => Some (generate d None)
      | None => obj_get k acc
      end.
Proof.
  induction hs as [|[k0 d0] hs IH]; intros N acc k; cbn [fold_left].
  - reflexivity.
  - unfold obj_keys in N. simpl in N. inversion N as [|? ? Hk N']; subst.
    rewrite (IH N'). simpl. destruct (String.eqb k k0) eqn:E.
    + apply String.eqb_eq in E. subst k0.
      replace (obj_get k hs) with (@None Descriptor)
        by (symmetry; now apply obj_get_none_keys).
      apply obj_get_set_same.
    + apply String.eqb_neq in E.
      now rewrite (obj_get_set_other k0 k _ acc E).
Qed.


(** X7.  For a status code that is not the name of an inherited member,
    [getResponse] throws exactly when the operation declares no response
    and a status code or the first-response marker is asked for; the lookup
    by example name never throws. *)
Theorem getResponse_throws_iff p sc nm :
  (forall code, sc = Some code -> inherited code = false) ->
  ((exists e, fst (fst (getResponse p sc nm)) = Throw e)
   <-> responses p = []
       /\ truthy_str sc || is_first_response nm = true).
Proof.
  intros I. unfold getResponse.
  destruct (truthy_str sc || is_first_response nm) eqn:G.
  - assert (S : forall e, fst (fst (let '(sel, w) :=
                 match sc with
                 | Some code => if str_empty code then (getFirstResponse p, [])
                                else getResponseByStatusCode p code
                 | None => (getFirstResponse p, [])
                 end in
               (s <- sel ;;
                Ok {| statusCode := VNum (string_to_number (s_statusCode s));
                      r_headers := and_then (of_option (s_headers s))
                                     generateResponseHeaders;
                      body := match s_schema s with
                              | Some sch => generate sch nm
                              | None => VNull
                              end;
                      responseMimeType := s_responseMimeType s |},
                p, w))) = Throw e <-> responses p = []
                                      /\ e = TypeError "undefined is not iterable").
    { intros e. unfold getResponseByStatusCode, getFirstResponse, read.
      destruct sc as [code|]; [rewrite (I code eq_refl)|].
      - destruct (responses p) as [|[c0 r0] rest] eqn:R.
        + destruct (str_empty code); simpl;
            (split; [intros [= <-]; now split|intros [_ ->]; reflexivity]).
        + destruct (str_empty code);
            [|destruct (obj_get code ((c0, r0) :: rest))];
            simpl; (split; [discriminate|intros [H _]; discriminate]).
      - destruct (responses p) as [|[c0 r0] rest] eqn:R; simpl.
        + split; [intros [= <-]; now split|intros [_ ->]; reflexivity].
        + split; [discriminate|intros [H _]; discriminate]. }
    split.
    + intros [e H]. apply S in H as [H _]. now split.
    + intros [H _]. exists (TypeError "undefined is not iterable").
      apply S. now split.
  - destruct (getFirstResponseByExampleName p nm) as [[n p'] w]. simpl.
    split; [intros [e H]; discriminate|intros [_ H]; discriminate].
Qed.


(** X9.  A call of [getResponse] changes nothing in the operation but,
    on the lookup by example name, the declared headers of the first
    response that has the example, on which [RTag] is assigned. *)
Theorem getResponse_frame p sc nm :
  snd (fst (getResponse p sc nm)) = p
  \/ exists name pre code r post,
       nm = Some name
       /\ responses p = (pre ++ (code, r) :: post)%list
       /\ (forall c x, In (c, x) pre -> named_example name x = None)
       /\ named_example name r <> None
       /\ snd (fst (getResponse p sc nm))
          = set_responses p (pre ++ (code, tagged name r) :: post)%list.
Proof.
  unfold getResponse.
  destruct (truthy_str sc || is_first_response nm).
  - left.
    now destruct (match sc with
                  | Some code => if str_empty code then (getFirstResponse p, [])
                                 else getResponseByStatusCode p code
                  | None => (getFirstResponse p, [])
                  end).
  - unfold getFirstResponseByExampleName.
    destruct nm as [name|]; [|now left].
    destruct (str_empty name); [now left|].
    destruct (find_named name (responses p)) as [[n rs]|] eqn:F; [|now left].
    right. simpl.
    destruct (find_named_effect name (responses p) n rs F)
      as (pre & code & r & post & E1 & B & Fr & E2 & _).
    exists name, pre, code, r, post. subst rs. now repeat split.
Qed.

(** X10.  The lookup by example name serves the first response, in
    enumeration order, whose primary content has the example with a truthy
    value: the body is that value as it is, the status code is the key of
    the response, and the headers are generated from the declared headers
    with [RTag] assigned, so that, the declared names being distinct, the
    header [RTag] is what the generator makes of the name. *)
Theorem named_example_is_served p sc nm pre code r post best mime :
  truthy_str sc = false -> is_first_response (Some nm) = false ->
  str_empty nm = false ->
  responses p = (pre ++ (code, r) :: post)%list ->
  (forall c x, In (c, x) pre -> named_example nm x = None) ->
  named_example nm r = Some (best, mime) ->
  fst (getResponse p sc (Some nm))
  = (Ok {| statusCode := VStr code;
           r_headers :=
             Defined (generateResponseHeaders
                        (obj_set "RTag" (RTag nm) (headers_or_empty r)));
           body := best;
           responseMimeType := mime |},
     set_responses p (pre ++ (code, tagged nm r) :: post)%list)
  /\ (NoDup (obj_keys (headers_or_empty r)) ->
      obj_get "RTag"
        (generateResponseHeaders
           (obj_set "RTag" (RTag nm) (headers_or_empty r)))
      = Some (generate (RTag nm) None)).
Proof.
  intros Hsc Hf Hn R Hpre Hr. split.
  - unfold getResponse, getFirstResponseByExampleName.
    rewrite Hsc, Hf, Hn, R. cbn [orb].
    now rewrite (find_named_at nm pre code r post best mime Hpre Hr).
  - intros N. unfold generateResponseHeaders.
    rewrite generated_headers_fold by now apply NoDup_obj_set.
    now rewrite obj_get_set_same.
Qed.

(** X11.  An example whose declared value is falsy ([0], [false], the
    empty string, [null]) or missing cannot be served by name: when no
    response has a truthy value under the name, the answer is the one of an
    unknown name, status 400. *)
Theorem falsy_example_is_not_served p sc nm :
  truthy_str sc = false -> is_first_response (Some nm) = false ->
  str_empty nm = false ->
  (forall code r, In (code, r) (responses p) ->
     truthy_opt (example_value nm r) = false) ->
  getResponse p sc (Some nm)
  = (Ok {| statusCode := VNum (Dec 400 0);
           r_headers := Defined [("RTag", generate (RTag nm) None)];
           body := not_found_message nm;
           responseMimeType := Some "application/json" |},
     p, [not_found_warning nm]).
Proof.
  intros Hsc Hf Hn H. unfold getResponse, getFirstResponseByExampleName.
  rewrite Hsc, Hf, Hn. cbn [orb].
  rewrite find_named_none; [reflexivity|].
  intros c x Hin. apply named_example_value. now apply (H c x).
Qed.

End MoreResolution.


Lemma getResponse_throws_iff_witness :
  exists e,
    fst (fst (getResponse (set_responses pet_operation []) (Some "200") None))
    = Throw e.
Proof.
  apply (proj2 (getResponse_throws_iff (C := sample)
                  (set_responses pet_operation []) (Some "200") None
                  (fun code (E : Some "200" = Some code) =>
                     match E in _ = x
                           return match x with
                                  | Some c => inherited c = false
                                  | None => True
                                  end with
                     | eq_refl => eq_refl
                     end))).
  split; reflexivity.
Defined.


Lemma named_example_is_served_witness :
  fst (fst (getResponse pet_operation None (Some "ex1")))
  = Ok {| statusCode := VStr "200";
          r_headers := Defined [("X-Rate-Limit",
                                 VObj [("type", VStr "integer")]);
                                ("RTag", VStr "ex1")];
          body := pet;
          responseMimeType := Some "application/json" |}.
Proof.
  rewrite (proj1 (named_example_is_served (C := sample) pet_operation None
                    "ex1" [] "200" pet_response [] pet
                    (Some "application/json") eq_refl eq_refl eq_refl
                    eq_refl (fun c x (F : In (c, x) []) => match F with end)
                    eq_refl)).
  reflexivity.
Defined.

Lemma falsy_example_is_not_served_witness :
  example_value "zero" zero_response = Some (VNum (Dec 0 0))
  /\ fst (fst (getResponse zero_operation None (Some "zero")))
     = Ok {| statusCode := VNum (Dec 400 0);
             r_headers := Defined [("RTag", VStr "zero")];
             body := not_found_message "zero";
             responseMimeType := Some "application/json" |}.
Proof.
  split; [reflexivity|].
  rewrite (falsy_example_is_not_served (C := sample) zero_operation None
             "zero" eq_refl eq_refl eq_refl).
  - reflexivity.
  - intros code r [[= <- <-]|[]]. reflexivity.
Defined.

(** ** More on validation *)

Lemma known_type_truthy t : known_type t = true -> truthy_str (Some t) = true.
Proof. destruct t; [discriminate|reflexivity]. Qed.

Section MoreValidation.
Context {C : Collaborators}.

(** X12.  A required parameter that the request does not carry, and
    whose name is not the name of an inherited member, is reported by
    [validateRequestParameters], under the name that is looked up (in lower
    case for a header). *)
Theorem required_absent_is_reported p r q o :
  In q (parameters p) -> facet_of q r = Some o -> required q = true ->
  obj_get (lookup_key q) o = None -> inherited (lookup_key q) = false ->
  In ("Missing required " ++ in_ q ++ " param " ++ lookup_key q)
     (fst (validateRequestParameters p r)).
Proof.
  intros Hin F R G I. apply (reported p r q); [exact Hin|].
  rewrite (validateParameter_facet q r o F).
  rewrite (inner_absent (with_name q (lookup_key q)) o G I).
  cbn [name with_name required in_]. now rewrite R.
Qed.

(** X13.  A parameter declared in a place other than [header], [query],
    [path] and [cookie] makes the validation of every request fail. *)
Theorem unknown_location_always_fails p r q :
  In q (parameters p) -> facet_of q r = None ->
  (forall r', In ("Invalid declaration for " ++ in_ q ++ " param " ++ name q)
                 (fst (validateRequestParameters p r'))).
Proof.
  intros Hin F r'. apply (reported p r' q); [exact Hin|].
  rewrite validateParameter_no_facet; [reflexivity|].
  revert F. unfold facet_of.
  destruct (String.eqb (in_ q) "header"); [discriminate|].
  destruct (String.eqb (in_ q) "query"); [discriminate|].
  destruct (String.eqb (in_ q) "path"); [discriminate|].
  destruct (String.eqb (in_ q) "cookie"); [discriminate|reflexivity].
Qed.

(** X14.  A parameter that the request carries, with a schema of a known
    type, passes exactly when the type test finds the value valid and the
    enumeration, if there is one with members, holds the value. *)
Theorem present_parameter_verdict q r o v sch t :
  facet_of q r = Some o -> obj_get (lookup_key q) o = Some v ->
  schema q = Some sch -> type sch = Some t -> known_type t = true ->
  (fst (validateParameter q r) = None
   <-> isValidType (Some t) v = Ok false
       /\ isValidEnumValue (enum sch) v = true).
Proof.
  intros F G S T K. rewrite (validateParameter_facet q r o F).
  rewrite (inner_own (with_name q (lookup_key q)) o v G). cbn [fst].
  unfold validateParameterSchema. cbn [schema with_name]. rewrite S, T.
  rewrite (known_type_truthy t K). cbn [fst in_ name with_name].
  unfold validateParameterType, validateParameterEnum. rewrite T.
  destruct (isValidType (Some t) v) as [[|]|e] eqn:E.
  - split; [discriminate|intros [H _]; discriminate].
  - destruct (isValidEnumValue (enum sch) v).
    + split; [intros H; now split|reflexivity].
    + split; [discriminate|intros [_ H]; discriminate].
  - split; [discriminate|intros [H _]; discriminate].
Qed.

(** X15.  The enumeration is compared without conversion: a value that
    is a string, as the values of a query, a path, a header and a cookie
    are, fails a typed schema whose enumeration has members none of which
    is a string. *)
Theorem string_fails_enum_of_other_types q sch l s :
  schema q = Some sch -> truthy_str (type sch) = true ->
  enum sch = Some l -> l <> [] ->
  (forall x, In x l -> is_string x = false) ->
  exists m, fst (validateParameterSchema q (VStr s)) = Some m.
Proof.
  intros S T E N H. unfold validateParameterSchema. rewrite S, T. cbn [fst].
  destruct (validateParameterType (in_ q) (name q) sch (VStr s)) as [m|];
    [now exists m|].
  unfold validateParameterEnum, isValidEnumValue. rewrite E.
  replace (List.length l =? 0)%nat with false
    by (destruct l; [congruence|reflexivity]).
  replace (includes l (VStr s)) with false; [cbn [orb]; eauto|].
  symmetry. unfold includes. clear E N. induction l as [|x l IH];
    [reflexivity|]. simpl. rewrite IH by (intros y Hy; apply H; now right).
  specialize (H x (or_introl eq_refl)). now destruct x.
Qed.

(** X16.  The mark [deprecated] never changes the verdict on a
    parameter; when the request carries a deprecated parameter, one warning
    comes before those of the validation; and a parameter that its facet
    neither has nor inherits logs nothing. *)
Theorem deprecation_only_warns q r :
  fst (validateParameter q r) = fst (validateParameter (undeprecated q) r)
  /\ (forall o v, facet_of q r = Some o ->
        obj_get (lookup_key q) o = Some v -> deprecated q = true ->
        snd (validateParameter q r)
        = deprecation_warning q :: snd (validateParameter (undeprecated q) r))
  /\ (forall o, facet_of q r = Some o -> obj_get (lookup_key q) o = None ->
        inherited (lookup_key q) = false ->
        snd (validateParameter q r) = []).
Proof.
  assert (U : forall o, facet_of q r = Some o ->
                        facet_of (undeprecated q) r = Some o)
    by (intros o; exact (fun H => H)).
  assert (L : lookup_key (undeprecated q) = lookup_key q) by reflexivity.
  split; [|split].
  - destruct (facet_of q r) as [o|] eqn:F in |- *.
    + rewrite (validateParameter_facet q r o F).
      rewrite (validateParameter_facet (undeprecated q) r o (U o F)), L.
      unfold _validateParameter.
      cbn [name with_name undeprecated required].
      destruct (read (lookup_key q) o) as [v|k|]; [| |reflexivity].
      * unfold validateParameterSchema.
        cbn [schema with_name undeprecated in_ name].
        destruct (schema q) as [sch|]; [|reflexivity].
        now destruct (truthy_str (type sch)).
      * unfold validateParameterSchema_member.
        cbn [schema with_name undeprecated in_ name].
        destruct (schema q) as [sch|]; [|reflexivity].
        now destruct (truthy_str (type sch)).
    + rewrite (validateParameter_no_facet q r F).
      now rewrite (validateParameter_no_facet (undeprecated q) r F).
  - intros o v F G D.
    rewrite (validateParameter_facet q r o F).
    rewrite (validateParameter_facet (undeprecated q) r o (U o F)), L.
    rewrite (inner_own (with_name q (lookup_key q)) o v G).
    rewrite (inner_own (with_name (undeprecated q) (lookup_key q)) o v G).
    unfold deprecation_warning.
    cbn [snd name with_name undeprecated deprecated in_]. rewrite D.
    unfold validateParameterSchema.
    cbn [schema with_name undeprecated in_ name].
    destruct (schema q) as [sch|]; [|reflexivity].
    now destruct (truthy_str (type sch)).
  - intros o F G I. rewrite (validateParameter_facet q r o F).
    rewrite (inner_absent (with_name q (lookup_key q)) o G I).
    now destruct (required (with_name q (lookup_key q))).
Qed.

(** X17.  Without a schema, or with a schema whose [type] is missing or
    empty, every value that the request carries passes, whatever the
    enumeration of the schema holds. *)
Theorem untyped_parameter_always_passes q r o v :
  facet_of q r = Some o -> obj_get (lookup_key q) o = Some v ->
  (forall sch, schema q = Some sch -> truthy_str (type sch) = false) ->
  fst (validateParameter q r) = None
  /\ exists text, In (Warn, text) (snd (validateParameter q r)).
Proof.
  intros F G H. rewrite (validateParameter_facet q r o F).
  rewrite (inner_own (with_name q (lookup_key q)) o v G). cbn [fst snd].
  unfold validateParameterSchema. cbn [schema with_name in_ name].
  destruct (schema q) as [sch|] eqn:S.
  - rewrite (H sch eq_refl). split; [reflexivity|]. eexists.
    apply in_or_app. right. now left.
  - split; [reflexivity|]. eexists. apply in_or_app. right. now left.
Qed.

(** X18.  A request body that is falsy ([0], [false], the empty string,
    [null]) is a missing body: it is reported when the body is required and
    is never given to the schema validator. *)
Theorem falsy_body_is_missing p b :
  truthy b = false ->
  validateRequestBody p (Some b) = validateRequestBody p None
  /\ (forall rb, requestBody p = Some rb -> rb_required rb = true ->
        validateRequestBody p (Some b)
        = (["Missing required request body"], [])).
Proof.
  intros T. unfold validateRequestBody. rewrite T. split.
  - now destruct (requestBody p).
  - intros rb -> ->. reflexivity.
Qed.

End MoreValidation.

Lemma required_absent_is_reported_witness :
  In "Missing required header param x-token"
     (fst (validateRequestParameters order_operation order_request)).
Proof.
  exact (required_absent_is_reported (C := sample) order_operation
           order_request token_param [] (or_introl eq_refl) eq_refl eq_refl
           eq_refl eq_refl).
Defined.

Lemma unknown_location_always_fails_witness :
  In "Invalid declaration for formData param file"
     (fst (validateRequestParameters form_operation order_request)).
Proof.
  exact (unknown_location_always_fails (C := sample) form_operation
           (request_with_query []) form_param (or_introl eq_refl) eq_refl
           order_request).
Defined.

Lemma present_parameter_verdict_witness :
  fst (validateParameter n_param (request_with_query [("n", VStr "2")]))
  = None.
Proof.
  apply (proj2 (present_parameter_verdict (C := sample) n_param
                  (request_with_query [("n", VStr "2")])
                  [("n", VStr "2")] (VStr "2")
                  {| type := Some "integer";
                     enum := Some [VStr "1"; VStr "2"] |}
                  "integer" eq_refl eq_refl eq_refl eq_refl eq_refl)).
  split; vm_compute; reflexivity.
Defined.

Lemma string_fails_enum_of_other_types_witness :
  exists m, fst (validateParameterSchema size_param (VStr "1")) = Some m.
Proof.
  refine (string_fails_enum_of_other_types (C := sample) size_param
            {| type := Some "integer";
               enum := Some [VNum (Dec 1 0); VNum (Dec 2 0)] |}
            [VNum (Dec 1 0); VNum (Dec 2 0)] "1" eq_refl eq_refl eq_refl
            _ _).
  - discriminate.
  - intros x [<-|[<-|[]]]; reflexivity.
Defined.

Lemma untyped_parameter_always_passes_witness :
  fst (validateParameter loose_param
         (request_with_query [("mode", VStr "z")])) = None.
Proof.
  refine (proj1 (untyped_parameter_always_passes (C := sample) loose_param
                   (request_with_query [("mode", VStr "z")])
                   [("mode", VStr "z")] (VStr "z") eq_refl eq_refl _)).
  intros sch [= <-]. reflexivity.
Defined.

Lemma falsy_body_is_missing_witness :
  validateRequestBody order_operation (Some (VNum (Dec 0 0)))
  = (["Missing required request body"], []).
Proof.
  exact (proj2 (falsy_body_is_missing (C := sample) order_operation
                  (VNum (Dec 0 0)) eq_refl)
           {| rb_required := true; rb_content := None |} eq_refl eq_refl).
Defined.

(** ** The request handler *)

Lemma str_empty_len s : 1 <= str_len s -> str_empty s = false.
Proof. destruct s; [unfold str_len; simpl; lia|reflexivity]. Qed.

Lemma positive_to_string_nonempty ds k n :
  1 <= str_len ds -> 1 <= str_len (positive_to_string ds k n).
Proof.
  intros H. unfold positive_to_string.
  repeat match goal with
         | |- context [if ?b then _ else _] => destruct b
         end;
    rewrite ?str_len_append;
    repeat match goal with
           | |- context [str_len ?x] =>
               lazymatch goal with
               | _ : 0 <= str_len x |- _ => fail
               | _ => pose proof (str_len_nonneg x)
               end
           end;
    change (str_len ".") with 1 in *; change (str_len "0.") with 2 in *;
    rewrite ?str_len_append in *; try lia.
Qed.

Lemma num_to_string_nonempty m e : str_empty (num_to_string (Dec m e)) = false.
Proof.
  unfold num_to_string. destruct (strip_trailing m e) as [s e'].
  destruct (s =? 0); [reflexivity|].
  apply str_empty_len. rewrite str_len_append.
  destruct (Z_digits_spec (Z.abs s) (Z.abs_nonneg s)) as (L & _).
  pose proof (positive_to_string_nonempty (Z_digits (Z.abs s))
                (str_len (Z_digits (Z.abs s)))
                (str_len (Z_digits (Z.abs s)) + e') L).
  pose proof (str_len_nonneg (if s <? 0 then "-" else EmptyString)). lia.
Qed.

(** [JSON.stringify] never gives the empty string. *)
Lemma JSON_stringify_nonempty v : str_empty (JSON_stringify v) = false.
Proof.
  destruct v as [|b|n|s|l|l]; try reflexivity.
  - now destruct b.
  - destruct n as [| |m e]; try reflexivity. apply num_to_string_nonempty.
Qed.

Lemma requirement_names_objects os :
  requirement_names (map VObj os) = Ok (flat_map obj_keys os).
Proof.
  induction os as [|o os IH]; simpl; [reflexivity|].
  rewrite IH. reflexivity.
Qed.

Section Schemes.
Variable schemes : obj SecurityScheme.
Variable r : Request.

Lemma loop_true names :
  forall s0,
    for_each names (check_scheme schemes r) s0 = Ok true
    <-> s0 = true
        /\ forall k s, In k names -> lookup_scheme k schemes = Some s ->
                       scheme_refuses s r = Ok false.
Proof.
  induction names as [|k names IH]; intros s0; cbn [for_each].
  - split.
    + intros [= ->]. split; [reflexivity|intros ? ? []].
    + now intros [-> _].
  - unfold check_scheme at 1. destruct (lookup_scheme k schemes) as [s|] eqn:G.
    + destruct (scheme_refuses s r) as [[|]|e] eqn:E; cbn [bind].
      * rewrite IH. split; [intros [H _]; discriminate|].
        intros [_ H]. specialize (H k s (or_introl eq_refl) G).
        rewrite E in H. discriminate.
      * rewrite IH. split.
        -- intros [-> H]. split; [reflexivity|].
           intros k' s' [<-|Hin] G'; [congruence|now apply (H k')].
        -- intros [-> H]. split; [reflexivity|].
           intros k' s' Hin. apply H. now right.
      * split; [discriminate|].
        intros [_ H]. specialize (H k s (or_introl eq_refl) G).
        rewrite E in H. discriminate.
    + cbn [bind]. rewrite IH. split.
      * intros [-> H]. split; [reflexivity|].
        intros k' s' [<-|Hin] G'; [congruence|now apply (H k')].
      * intros [-> H]. split; [reflexivity|].
        intros k' s' Hin. apply H. now right.
Qed.

Lemma loop_total names :
  (forall k s, In k names -> lookup_scheme k schemes = Some s ->
               exists b, scheme_refuses s r = Ok b) ->
  forall s0, exists b, for_each names (check_scheme schemes r) s0 = Ok b.
Proof.
  induction names as [|k names IH]; intros H s0; cbn [for_each].
  - now exists s0.
  - unfold check_scheme at 1. destruct (lookup_scheme k schemes) as [s|] eqn:G.
    + destruct (H k s (or_introl eq_refl) G) as [b ->]. cbn [bind].
      apply IH. intros k' s' Hin. apply H. now right.
    + cbn [bind]. apply IH. intros k' s' Hin. apply H. now right.
Qed.

Lemma loop_throws names k s :
  In k names -> lookup_scheme k schemes = Some s ->
  (exists e, scheme_refuses s r = Throw e) ->
  forall s0, exists e, for_each names (check_scheme schemes r) s0 = Throw e.
Proof.
  intros Hin G [e E]. apply (for_each_throws (check_scheme schemes r) k); [exact Hin|].
  intros s0. unfold check_scheme. rewrite G, E. now exists e.
Qed.

Lemma check_schemes_loop names :
  check_schemes schemes r names
  = for_each names (check_scheme schemes r) true.
Proof. reflexivity. Qed.

End Schemes.

Lemma authorized_with schemes p cfg r os :
  securitySchemes cfg = Some schemes ->
  pathSecurity p cfg = VArr (map VObj os) ->
  authorized p cfg r
  = if (0 <? List.length schemes)%nat
    then if (0 <? List.length (flat_map obj_keys os))%nat
         then check_schemes schemes r (flat_map obj_keys os)
         else Ok true
    else Ok true.
Proof.
  intros S P. unfold authorized. rewrite S, P. unfold validSecurities.
  now rewrite requirement_names_objects.
Qed.

Lemma authorized_true_iff schemes p cfg r os :
  securitySchemes cfg = Some schemes ->
  pathSecurity p cfg = VArr (map VObj os) ->
  (authorized p cfg r = Ok true
   <-> forall s, named_scheme schemes os s -> scheme_refuses s r = Ok false).
Proof.
  intros S P. rewrite (authorized_with schemes p cfg r os S P).
  destruct schemes as [|e schemes'] eqn:Es.
  - cbn [List.length Nat.ltb Nat.leb]. split; [|reflexivity].
    intros _ s [N _]. now destruct N.
  - rewrite <- Es in *.
    assert (Ne : schemes <> []) by (rewrite Es; discriminate).
    assert (N : (forall s, named_scheme schemes os s ->
                           scheme_refuses s r = Ok false)
                <-> (forall k s, In k (flat_map obj_keys os) ->
                       lookup_scheme k schemes = Some s ->
                       scheme_refuses s r = Ok false)).
    { split.
      - intros H k s Hin G. apply H. split; [exact Ne|].
        apply in_flat_map in Hin as (o & Ho & Hk). now exists o, k.
      - intros H s (_ & o & k & Ho & Hk & G). apply (H k); [|exact G].
        apply in_flat_map. now exists o. }
    rewrite N.
    replace (0 <? List.length schemes)%nat with true
      by (rewrite Es; reflexivity).
    destruct (flat_map obj_keys os) as [|k0 ks] eqn:Ek.
    + cbn [List.length Nat.ltb Nat.leb]. split; [|reflexivity].
      intros _ k s [].
    + rewrite <- Ek. replace (0 <? List.length (flat_map obj_keys os))%nat
        with true by (rewrite Ek; reflexivity).
      rewrite check_schemes_loop, loop_true. split; [now intros [_ H]|].
      now split.
Qed.

(** X19.  The security block lets a request through exactly when every
    scheme that it checks accepts the request, a scheme being checked when
    the configuration declares some scheme, a requirement object has its
    name and the read [securitySchemes[name]] finds it: the requirement
    objects are not alternatives, and when no scheme is checked every
    request is let through. *)
Theorem authorized_iff_every_named_scheme_accepts schemes p cfg r os :
  securitySchemes cfg = Some schemes ->
  pathSecurity p cfg = VArr (map VObj os) ->
  (authorized p cfg r = Ok true
   <-> forall s, named_scheme schemes os s -> scheme_refuses s r = Ok false)
  /\ ((forall s, ~ named_scheme schemes os s) -> authorized p cfg r = Ok true).
Proof.
  intros S P. split; [now apply authorized_true_iff|].
  intros H. apply (authorized_true_iff schemes p cfg r os S P).
  intros s N. now destruct (H s).
Qed.

(** X20.  An operation whose own [security] is the empty list asks for no
    credentials, whatever the global requirement and the declared schemes
    are. *)
Theorem empty_operation_security_overrides_global p cfg r :
  security p = Some (VArr []) -> authorized p cfg r = Ok true.
Proof.
  intros S. unfold authorized, pathSecurity. rewrite S. cbn [truthy_opt truthy].
  destruct (securitySchemes cfg) as [schemes|]; [|reflexivity].
  now destruct (0 <? List.length schemes)%nat.
Qed.

(** X21.  An [apiKey] scheme whose name in lower case is not the name of
    an inherited member accepts a request exactly when its place is
    [header], [query] or [cookie], the request has there a truthy value
    under the name of the scheme in lower case, and, when the scheme has a
    truthy [x-value], the two agree as texts. *)
Theorem api_key_accepted_iff s r :
  is_apiKey s = true ->
  (forall n, sc_name s = Some n -> inherited (toLowerCase n) = false) ->
  (scheme_refuses s r = Ok false
   <-> exists place o n v,
         sc_in s = Some place /\ place_facet place r = Some o
         /\ sc_name s = Some n /\ obj_get (toLowerCase n) o = Some v
         /\ truthy v = true
         /\ (forall x, x_value s = Some x -> truthy x = true ->
               to_string v = to_string x)).
Proof.
  intros A I. unfold scheme_refuses. rewrite A.
  assert (K : forall o,
    (check <- (k <- lower_field (sc_name s) ;; Ok (read k o)) ;;
     Ok (negb (found_truthy check)
         || (truthy_opt (x_value s)
             && negb (String.eqb
                        (found_text check)
                        (match x_value s with Some x => to_string x
                                            | None => "undefined" end)))))
    = Ok false
    <-> exists n v, sc_name s = Some n /\ obj_get (toLowerCase n) o = Some v
                    /\ truthy v = true
                    /\ (forall x, x_value s = Some x -> truthy x = true ->
                          to_string v = to_string x)).
  { intros o. destruct (sc_name s) as [n|]; cbn [lower_field bind].
    - unfold read. rewrite (I n eq_refl).
      destruct (obj_get (toLowerCase n) o) as [v|] eqn:G;
        cbn [found_truthy found_text negb orb].
      + destruct (truthy v) eqn:Tv; cbn [negb orb].
        * destruct (x_value s) as [x|]; cbn [truthy_opt andb].
          -- destruct (truthy x) eqn:Tx; cbn [andb].
             ++ destruct (String.eqb (to_string v) (to_string x)) eqn:E;
                  cbn [negb].
                ** apply String.eqb_eq in E. split; [|reflexivity].
                   intros _. exists n, v. split; [reflexivity|].
                   split; [exact G|]. split; [exact Tv|].
                   now intros x' [= <-] _.
                ** apply String.eqb_neq in E. split; [discriminate|].
                   intros (n' & v' & [= <-] & G' & _ & H).
                   rewrite G in G'. injection G' as <-.
                   now destruct (E (H x eq_refl Tx)).
             ++ split; [|reflexivity]. intros _. exists n, v.
                split; [reflexivity|]. split; [exact G|]. split; [exact Tv|].
                intros x' [= <-] Tx'. congruence.
          -- split; [|reflexivity]. intros _. exists n, v.
             split; [reflexivity|]. split; [exact G|]. split; [exact Tv|].
             discriminate.
        * split; [discriminate|].
          intros (n' & v' & [= <-] & G' & T' & _).
          rewrite G in G'. injection G' as <-. congruence.
      + split; [discriminate|].
        intros (n' & v' & [= <-] & G' & _). congruence.
    - split; [discriminate|]. intros (n & v & G & _). discriminate. }
  unfold securityCheck. destruct (sc_in s) as [place|].
  - destruct (String.eqb place "header") eqn:Eh;
      [|destruct (String.eqb place "query") eqn:Eq;
        [|destruct (String.eqb place "cookie") eqn:Ec]].
    + rewrite K. split.
      * intros (n & v & H). exists place, (req_headers r), n, v.
        split; [reflexivity|]. split; [|exact H].
        unfold place_facet. now rewrite Eh.
      * intros (pl & o & n & v & [= <-] & F & H). unfold place_facet in F.
        rewrite Eh in F. injection F as <-. now exists n, v.
    + rewrite K. split.
      * intros (n & v & H). exists place, (req_query r), n, v.
        split; [reflexivity|]. split; [|exact H].
        unfold place_facet. now rewrite Eh, Eq.
      * intros (pl & o & n & v & [= <-] & F & H). unfold place_facet in F.
        rewrite Eh, Eq in F. injection F as <-. now exists n, v.
    + rewrite K. split.
      * intros (n & v & H). exists place, (req_cookies r), n, v.
        split; [reflexivity|]. split; [|exact H].
        unfold place_facet. now rewrite Eh, Eq, Ec.
      * intros (pl & o & n & v & [= <-] & F & H). unfold place_facet in F.
        rewrite Eh, Eq, Ec in F. injection F as <-. now exists n, v.
    + cbn [bind found_truthy negb orb]. split; [discriminate|].
      intros (pl & o & n & v & [= <-] & F & _). unfold place_facet in F.
      rewrite Eh, Eq, Ec in F. discriminate.
  - cbn [bind found_truthy negb orb]. split; [discriminate|].
    intros (pl & o & n & v & F & _). discriminate.
Qed.

(** X22.  An API key that the request carries in the query or in a cookie
    under the declared name is not found when the declared name has an
    upper-case letter: the name is put in lower case before the lookup, in
    every place.  (The name in lower case is not the name of an inherited
    member.) *)
Theorem api_key_lookup_is_lower_case s r place o n :
  is_apiKey s = true -> sc_in s = Some place ->
  place_facet place r = Some o -> sc_name s = Some n ->
  obj_get (toLowerCase n) o = None -> inherited (toLowerCase n) = false ->
  scheme_refuses s r = Ok true.
Proof.
  intros A I F N G H. unfold scheme_refuses, securityCheck. rewrite A, I, N.
  unfold place_facet in F. cbn [lower_field].
  destruct (String.eqb place "header");
    [|destruct (String.eqb place "query");
      [|destruct (String.eqb place "cookie"); [|discriminate]]];
    injection F as <-; cbn [bind]; unfold read; now rewrite G, H.
Qed.

(** X23.  A scheme that is not an [apiKey] accepts a request exactly when
    the header [authorization] is a non-empty text whose first word is the
    declared [scheme] up to letter case and, when the scheme has a truthy
    [x-value], whose second word is that value. *)
Theorem http_scheme_accepted_iff s r :
  is_apiKey s = false ->
  (scheme_refuses s r = Ok false
   <-> exists text declared,
         obj_get "authorization" (req_headers r) = Some (VStr text)
         /\ str_empty text = false
         /\ sc_scheme s = Some declared
         /\ toLowerCase (auth_scheme text) = toLowerCase declared
         /\ (forall x, x_value s = Some x -> truthy x = true ->
               exists t, auth_token text = Some t /\ x = VStr t)).
Proof.
  intros A. unfold scheme_refuses. rewrite A.
  destruct (obj_get "authorization" (req_headers r)) as [a|].
  - destruct (truthy a) eqn:Ta.
    + destruct a as [|b|n|text|l|l];
        try (split; [discriminate|intros (? & ? & [=] & _)]).
      cbn [truthy] in Ta. apply negb_true_iff in Ta.
      destruct (sc_scheme s) as [declared|]; cbn [lower_field bind].
      * fold (auth_scheme text).
        destruct (String.eqb (toLowerCase (auth_scheme text))
                    (toLowerCase declared)) eqn:E; cbn [negb orb].
        -- apply String.eqb_eq in E.
           assert (X : (truthy_opt (x_value s)
                        && negb (match x_value s,
                                       match split_on " " text with
                                       | _ :: t :: _ => Some (VStr t)
                                       | _ => None
                                       end with
                                 | Some x, Some t => strict_equal x t
                                 | _, _ => false
                                 end) = false)
                       <-> (forall x, x_value s = Some x -> truthy x = true ->
                              exists t, auth_token text = Some t
                                        /\ x = VStr t)).
           { unfold auth_token. destruct (x_value s) as [x|];
               cbn [truthy_opt andb].
             - destruct (truthy x) eqn:Tx; cbn [andb].
               + destruct (split_on " " text) as [|w [|t rest]].
                 * split; [discriminate|].
                   intros H. destruct (H x eq_refl Tx) as (t & [=] & _).
                 * split; [discriminate|].
                   intros H. destruct (H x eq_refl Tx) as (t & [=] & _).
                 * rewrite negb_false_iff. split.
                   -- intros Q x' [= <-] _. exists t. split; [reflexivity|].
                      destruct x; try discriminate. cbn [strict_equal] in Q.
                      apply String.eqb_eq in Q. now subst.
                   -- intros H.
                      destruct (H x eq_refl Tx) as (t' & [= <-] & ->).
                      cbn [strict_equal]. apply String.eqb_refl.
               + split; [|reflexivity]. intros _ x' [= <-]. congruence.
             - split; [|reflexivity]. intros _ x' [=]. }
           split.
           ++ intros [= H]. exists text, declared.
              split; [reflexivity|]. split; [exact Ta|].
              split; [reflexivity|]. split; [exact E|]. now apply X.
           ++ intros (text' & declared' & [= <-] & _ & [= <-] & _ & H).
              f_equal. now apply X.
        -- apply String.eqb_neq in E. split; [discriminate|].
           intros (text' & declared' & [= <-] & _ & [= <-] & Q & _).
           contradiction.
      * split; [discriminate|].
        intros (text' & declared' & _ & _ & [=] & _).
    + split; [discriminate|].
      intros (text & declared & [= ->] & N & _). cbn [truthy] in Ta.
      rewrite N in Ta. discriminate.
  - split; [discriminate|]. intros (text & declared & [=] & _).
Qed.

Section HandlerProperties.
Context {C : Collaborators} {T : Transport}.

(** X24.  When some scheme that the security block checks refuses the
    request, and none throws, the handler answers status 401 with the body
    [{errors: 'Unauthorized'}]: the request is not validated, no response is
    resolved and the operation is left as it was. *)
Theorem refused_request_is_answered_401 schemes p cfg req os s :
  securitySchemes cfg = Some schemes ->
  pathSecurity p cfg = VArr (map VObj os) ->
  (forall s', named_scheme schemes os s' ->
              exists b, scheme_refuses s' (facets req) = Ok b) ->
  named_scheme schemes os s -> scheme_refuses s (facets req) = Ok true ->
  handleRequest p cfg req
  = Ok (unauthorized, p, checkContentType (facets req)).
Proof.
  intros S P Tot N R. unfold handleRequest.
  pose proof (proj1 N) as Ne.
  assert (A : authorized p cfg (facets req) = Ok false).
  { destruct (authorized p cfg (facets req)) as [[|]|e] eqn:E.
    - pose proof (proj1 (authorized_true_iff schemes p cfg (facets req) os
                           S P) E s N) as E'.
      rewrite E' in R. discriminate.
    - reflexivity.
    - exfalso. rewrite (authorized_with schemes p cfg _ os S P) in E.
      destruct (0 <? List.length schemes)%nat; [|discriminate].
      destruct (0 <? List.length (flat_map obj_keys os))%nat; [|discriminate].
      rewrite check_schemes_loop in E.
      destruct (loop_total schemes (facets req) (flat_map obj_keys os))
        with (s0 := true) as [b B].
      + intros k s' Hin G. apply Tot. split; [exact Ne|].
        apply in_flat_map in Hin as (o & Ho & Hk). now exists o, k.
      + rewrite B in E. discriminate. }
  rewrite A. reflexivity.
Qed.

(** X25.  A scheme without the field [scheme], as an OAuth2 or an OpenID
    Connect scheme is, makes the handler throw on every request that has a
    header [authorization], when the security block checks it. *)
Theorem scheme_without_scheme_field_throws schemes p cfg req os s text :
  securitySchemes cfg = Some schemes ->
  pathSecurity p cfg = VArr (map VObj os) ->
  named_scheme schemes os s ->
  is_apiKey s = false -> sc_scheme s = None ->
  obj_get "authorization" (req_headers (facets req)) = Some (VStr text) ->
  str_empty text = false ->
  exists e, handleRequest p cfg req = Throw e.
Proof.
  intros S P (Ne & o & k & Ho & Hk & G) A D H N. unfold handleRequest.
  rewrite (authorized_with schemes p cfg _ os S P).
  assert (Hin : In k (flat_map obj_keys os))
    by (apply in_flat_map; now exists o).
  replace (0 <? List.length schemes)%nat with true
    by (destruct schemes; [now destruct Ne|reflexivity]).
  replace (0 <? List.length (flat_map obj_keys os))%nat with true
    by (destruct (flat_map obj_keys os); [destruct Hin|reflexivity]).
  rewrite check_schemes_loop.
  destruct (loop_throws schemes (facets req) (flat_map obj_keys os) k s Hin G)
    with (s0 := true) as [e E].
  - unfold scheme_refuses. rewrite A, H. cbn [truthy]. rewrite N, D.
    cbn [negb lower_field bind]. eauto.
  - rewrite E. cbn [bind]. now exists e.
Qed.

(** X26.  When a content entry of the declared request body has no
    [examples], every request with a body that passes the security block
    and the validation makes the handler throw, whatever the header
    [Prefer] asks for. *)
Theorem body_on_schema_only_operation_throws p cfg req c v :
  authorized p cfg (facets req) = Ok true ->
  fst (validateRequestParameters p (facets req)) = [] ->
  declared_content p = Some c ->
  (exists k d, In (k, d) c /\ d_examples d = None) ->
  req_body (facets req) = Some v ->
  exists e, handleRequest p cfg req = Throw e.
Proof.
  intros A V D Hc B. unfold handleRequest. rewrite A. cbn [bind negb].
  destruct (validateRequestParameters p (facets req)) as [fs w1].
  cbn [fst] in V. subst fs. cbn [List.length Nat.ltb Nat.leb].
  unfold getResponseMemo. rewrite B. cbn [option_map].
  rewrite findPreferred_unfold.
  destruct (match_path p (url_path req) []) as [m1|e1]; cbn [bind];
    [|now exists e1].
  destruct (match_query p _ m1) as [m2|e2]; cbn [bind]; [|now exists e2].
  destruct (match_headers p _ m2) as [m3|e3]; cbn [bind]; [|now exists e3].
  unfold match_request_body. rewrite D. cbn [truthy].
  rewrite JSON_stringify_nonempty. cbn [negb].
  destruct (json_parse (JSON_stringify v)) as [bodyObject|e4]; cbn [bind];
    [|now exists e4].
  destruct (match_body_throws c bodyObject Hc m3) as [e ->]. now exists e.
Qed.

End HandlerProperties.

Lemma authorized_iff_every_named_scheme_accepts_witness :
  authorized plain_operation (sample_config ["key"; "missing"])
    (request_with_query [("apikey", VStr "secret")]) = Ok true.
Proof.
  apply (proj2 (proj1 (authorized_iff_every_named_scheme_accepts
                         sample_schemes plain_operation
                         (sample_config ["key"; "missing"])
                         (request_with_query [("apikey", VStr "secret")])
                         [[("key", VArr [])]; [("missing", VArr [])]]
                         eq_refl eq_refl))).
  intros s (_ & o & k & [<-|[<-|[]]] & [<-|[]] & [= <-]). reflexivity.
Defined.

Lemma empty_operation_security_overrides_global_witness :
  authorized public_operation (sample_config ["key"]) (request_with_query [])
  = Ok true.
Proof.
  exact (empty_operation_security_overrides_global public_operation
           (sample_config ["key"]) (request_with_query []) eq_refl).
Defined.

Lemma api_key_accepted_iff_witness :
  scheme_refuses key_scheme (request_with_query [("apikey", VStr "secret")])
  = Ok false.
Proof.
  apply (proj2 (api_key_accepted_iff key_scheme
                  (request_with_query [("apikey", VStr "secret")]) eq_refl
                  (fun n (E : Some "apiKey" = Some n) =>
                     match E in _ = x
                           return match x with
                                  | Some c => inherited (toLowerCase c) = false
                                  | None => True
                                  end with
                     | eq_refl => eq_refl
                     end))).
  exists "query", [("apikey", VStr "secret")], "apiKey", (VStr "secret").
  do 5 (split; [reflexivity|]). now intros x [= <-] _.
Defined.

Lemma api_key_lookup_is_lower_case_witness :
  obj_get "apiKey" [("apiKey", VStr "secret")] = Some (VStr "secret")
  /\ scheme_refuses key_scheme
       (request_with_query [("apiKey", VStr "secret")]) = Ok true.
Proof.
  split; [reflexivity|].
  exact (api_key_lookup_is_lower_case key_scheme
           (request_with_query [("apiKey", VStr "secret")]) "query"
           [("apiKey", VStr "secret")] "apiKey" eq_refl eq_refl eq_refl
           eq_refl eq_refl eq_refl).
Defined.

Lemma http_scheme_accepted_iff_witness :
  scheme_refuses bearer_scheme
    (request_with_headers [("authorization", VStr "Bearer t0ken")])
  = Ok false.
Proof.
  apply (proj2 (http_scheme_accepted_iff bearer_scheme
                  (request_with_headers
                     [("authorization", VStr "Bearer t0ken")]) eq_refl)).
  exists "Bearer t0ken", "bearer". do 4 (split; [reflexivity|]).
  intros x [= <-] _. now exists "t0ken".
Defined.

Lemma refused_request_is_answered_401_witness :
  handleRequest plain_operation (sample_config ["key"])
    (http_request order_request "/ping")
  = Ok (unauthorized, plain_operation, [(Warn, "* Missing content-type header")]).
Proof.
  apply (refused_request_is_answered_401 (C := sample) (T := sample_transport)
           sample_schemes plain_operation (sample_config ["key"])
           (http_request order_request "/ping") [[("key", VArr [])]]
           key_scheme eq_refl eq_refl).
  - intros s (_ & o & k & [<-|[]] & [<-|[]] & [= <-]). now exists true.
  - split; [discriminate|]. exists [("key", VArr [])], "key".
    split; [now left|]. split; [now left|reflexivity].
  - reflexivity.
Defined.

Lemma scheme_without_scheme_field_throws_witness :
  exists e,
    handleRequest plain_operation (sample_config ["oauth"])
      (http_request (request_with_headers [("authorization", VStr "Bearer x")])
         "/ping") = Throw e.
Proof.
  apply (scheme_without_scheme_field_throws (C := sample)
           (T := sample_transport) sample_schemes plain_operation
           (sample_config ["oauth"])
           (http_request
              (request_with_headers [("authorization", VStr "Bearer x")])
              "/ping")
           [[("oauth", VArr [])]] oauth_scheme "Bearer x" eq_refl eq_refl).
  - split; [discriminate|]. exists [("oauth", VArr [])], "oauth".
    split; [now left|]. split; [now left|reflexivity].
  - reflexivity.
  - reflexivity.
  - reflexivity.
  - reflexivity.
Defined.

Lemma body_on_schema_only_operation_throws_witness :
  exists e,
    handleRequest upload_operation open_config
      (http_request (request_with_body (VObj [("a", VNum (Dec 1 0))]))
         "/upload") = Throw e.
Proof.
  apply (body_on_schema_only_operation_throws (C := sample)
           (T := sample_transport) upload_operation open_config
           (http_request (request_with_body (VObj [("a", VNum (Dec 1 0))]))
              "/upload")
           [("application/json",
             {| d_schema := Some (VObj [("type", VStr "object")]);
                d_examples := None |})]
           (VObj [("a", VNum (Dec 1 0))]) eq_refl eq_refl eq_refl).
  - eexists _, _. split; [left; reflexivity|reflexivity].
  - reflexivity.
Defined.
